(** * AutoPart front end: the API access layer

    A shallow embedding of [src/utils/api/index.ts] (the token store, the
    request interceptor, the 401 refresh coordinator and error
    normalisation), of [src/utils/api/queryClient.ts] (the data-fetching
    defaults) and of the token handling of [src/hooks/auth].

    JavaScript runs one task at a time.  A task is modelled as a
    computation in a state monad over [World], the mutable state of the
    page: [localStorage], the module variables [isRefreshing] and
    [failedQueue], [window.location.href], the handler activations
    suspended at an [await], and the log of the effects performed so far. *)

From stdpp Require Import base strings gmap list.
From Stdlib Require Import ZArith Lia.

(** ** JavaScript values *)

(** [string | null]: what [localStorage.getItem] returns and what an
    optional string property holds. *)
Definition truthy (v : option string) : bool :=
  match v with
  | Some s => negb (String.eqb s "")
  | None => false
  end.

(** A string is falsy exactly when it is empty. *)
Definition truthy_string (s : string) : bool := truthy (Some s).

(** [a || b] on optional strings: the first operand when it is truthy. *)
Definition or_else (a b : option string) : option string :=
  if truthy a then a else b.

(** [a || 'literal'], a string for sure. *)
Definition or_literal (a : option string) (literal : string) : string :=
  match or_else a (Some literal) with
  | Some s => s
  | None => literal
  end.

(** [if (v) { ... v ... } else { ... }]: in the first branch [v] is
    narrowed to a non-empty string. *)
Definition if_truthy {A : Type} (v : option string)
    (yes : string -> A) (no : A) : A :=
  match v with
  | Some s => if truthy_string s then yes s else no
  | None => no
  end.

(** An object reference is always truthy. *)
Definition truthy_object {A : Type} (_ : A) : bool := true.

(** ** Configuration and constants *)

Definition TOKEN_STORAGE_KEY : string := "auth_token".
Definition REFRESH_TOKEN_STORAGE_KEY : string := "refresh_token".

(** ** Requests, responses and errors *)

(** [InternalAxiosRequestConfig & { _retry?: boolean }].  [headers] is a
    required property of the type; an absent [_retry] reads as [false]
    under [!]. *)
Record InternalAxiosRequestConfig : Type := mkConfig {
  url : string;
  method : string;
  headers : gmap string string;
  _retry : bool
}.

Definition set_headers (h : gmap string string)
    (c : InternalAxiosRequestConfig) : InternalAxiosRequestConfig :=
  {| url := url c; method := method c; headers := h; _retry := _retry c |}.

Definition set_retry (b : bool)
    (c : InternalAxiosRequestConfig) : InternalAxiosRequestConfig :=
  {| url := url c; method := method c; headers := headers c; _retry := b |}.

(** The body of an error response: [{ message?: string; error?: string }]. *)
Module ErrorBody.
Record t : Type := mk { message : option string; error : option string }.
End ErrorBody.

Module AxiosResponse.
Record t : Type := mk { status : Z; data : option ErrorBody.t }.
End AxiosResponse.

Module AxiosError.
Record t : Type := mk {
  config : InternalAxiosRequestConfig;
  response : option AxiosResponse.t;
  message : string;
  code : option string
}.

Definition set_config (c : InternalAxiosRequestConfig) (e : t) : t :=
  {| config := c; response := response e;
     message := message e; code := code e |}.
End AxiosError.

(** A value caught by [catch (error)], along the three tests of
    [handleApiError]. *)
Inductive Thrown : Type :=
  | ThrownAxios (e : AxiosError.t)
  | ThrownError (message : string)
  | ThrownOther.

(** The body of a successful refresh: [{ token, refreshToken? }]. *)
Record RefreshData : Type := mkRefreshData {
  token : string;
  refreshToken : option string
}.

Inductive RefreshResult : Type :=
  | RefreshOk (data : RefreshData)
  | RefreshErr (refreshError : Thrown).

(** The body of a login response, [AuthTokenResponse]. *)
Record AuthTokenResponse : Type := mkAuth {
  auth_token : option string;
  auth_refreshToken : option string
}.

(** A [{ resolve, reject }] pair of [failedQueue].  Its promise continues
    with [.then(() => apiClient(originalRequest))], so the pair is
    identified by the request it is bound to. *)
Record Deferred : Type := mkDeferred { waiting : InternalAxiosRequestConfig }.

(** ** Effects *)

(** What a task does to the world outside the module variables, in the
    order it does it: writes to [localStorage], the redirect, the
    [axios.post] to [/api/v1/token/refresh] with its [{ refreshToken }]
    payload, a request handed to the network by [apiClient], the
    settlement of a queued deferred, and the rejection a caller observes. *)
Inductive Effect : Type :=
  | StorageSet (key value : string)
  | StorageRemove (key : string)
  | Redirect (href : string)
  | PostRefresh (refreshToken : string)
  | Sent (config : InternalAxiosRequestConfig)
  | Resolved (d : Deferred) (token : option string)
  | RejectedDeferred (d : Deferred) (reason : Thrown)
  | Failed (config : InternalAxiosRequestConfig) (reason : Thrown).

(** A promise reaction waiting in the microtask queue: the [.then] of a
    resolved deferred or the [.catch] of a rejected one. *)
Inductive Job : Type :=
  | ThenJob (d : Deferred)
  | CatchJob (d : Deferred) (reason : Thrown).

(** ** The state of the page *)

Record World : Type := mkWorld {
  localStorage : gmap string string;
  isRefreshing : bool;
  failedQueue : list Deferred;
  location_href : string;
  awaiting : list InternalAxiosRequestConfig;
  microtasks : list Job;
  log : list Effect
}.

Definition with_localStorage (w : World) (s : gmap string string) : World :=
  mkWorld s (isRefreshing w) (failedQueue w) (location_href w)
    (awaiting w) (microtasks w) (log w).

Definition with_isRefreshing (w : World) (b : bool) : World :=
  mkWorld (localStorage w) b (failedQueue w) (location_href w)
    (awaiting w) (microtasks w) (log w).

Definition with_failedQueue (w : World) (q : list Deferred) : World :=
  mkWorld (localStorage w) (isRefreshing w) q (location_href w)
    (awaiting w) (microtasks w) (log w).

Definition with_location_href (w : World) (h : string) : World :=
  mkWorld (localStorage w) (isRefreshing w) (failedQueue w) h
    (awaiting w) (microtasks w) (log w).

Definition with_awaiting (w : World)
    (a : list InternalAxiosRequestConfig) : World :=
  mkWorld (localStorage w) (isRefreshing w) (failedQueue w) (location_href w)
    a (microtasks w) (log w).

Definition with_microtasks (w : World) (j : list Job) : World :=
  mkWorld (localStorage w) (isRefreshing w) (failedQueue w) (location_href w)
    (awaiting w) j (log w).

Definition with_log (w : World) (l : list Effect) : World :=
  mkWorld (localStorage w) (isRefreshing w) (failedQueue w) (location_href w)
    (awaiting w) (microtasks w) l.

(** A freshly loaded page: the module variables hold their initialisers,
    [localStorage] is whatever an earlier visit left. *)
Definition init (storage : gmap string string) (href : string) : World :=
  mkWorld storage false [] href [] [] [].

(** ** Tasks as state-passing computations *)

Definition M (A : Type) : Type := World -> A * World.

Definition ret {A : Type} (a : A) : M A := fun w => (a, w).

Definition bind {A B : Type} (m : M A) (k : A -> M B) : M B :=
  fun w => let (a, w') := m w in k a w'.

Declare Scope js_scope.
Delimit Scope js_scope with js.
Notation "x <- m ;; k" := (bind m (fun x => k))
  (at level 100, m at next level, right associativity) : js_scope.
Notation "m ;; k" := (bind m (fun _ => k))
  (at level 100, right associativity) : js_scope.
Local Open Scope js_scope.

Definition exec {A : Type} (m : M A) (w : World) : World := snd (m w).
Definition eval {A : Type} (m : M A) (w : World) : A := fst (m w).

Definition modify (f : World -> World) : M unit := fun w => (tt, f w).

Definition emit (e : Effect) : M unit :=
  modify (fun w => with_log w (log w ++ [e])).

Definition getItem (key : string) : M (option string) := fun w =>
  (localStorage w !! key, w).

Definition setItem (key value : string) : M unit :=
  modify (fun w => with_localStorage w (<[key := value]> (localStorage w))) ;;
  emit (StorageSet key value).

Definition removeItem (key : string) : M unit :=
  modify (fun w => with_localStorage w (delete key (localStorage w))) ;;
  emit (StorageRemove key).

Definition get_isRefreshing : M bool := fun w => (isRefreshing w, w).

Definition set_isRefreshing (b : bool) : M unit :=
  modify (fun w => with_isRefreshing w b).

Definition get_failedQueue : M (list Deferred) := fun w => (failedQueue w, w).

Definition set_failedQueue (q : list Deferred) : M unit :=
  modify (fun w => with_failedQueue w q).

(** [failedQueue.push(d)] *)
Definition push_failedQueue (d : Deferred) : M unit :=
  modify (fun w => with_failedQueue w (failedQueue w ++ [d])).

(** [window.location.href = href] *)
Definition set_location_href (href : string) : M unit :=
  modify (fun w => with_location_href w href) ;;
  emit (Redirect href).

(** The activation reaches [await] and is parked until the call settles. *)
Definition suspend (c : InternalAxiosRequestConfig) : M unit :=
  modify (fun w => with_awaiting w (awaiting w ++ [c])).

Definition take_awaiting : M (option InternalAxiosRequestConfig) := fun w =>
  match awaiting w with
  | [] => (None, w)
  | c :: rest => (Some c, with_awaiting w rest)
  end.

Definition enqueue_job (j : Job) : M unit :=
  modify (fun w => with_microtasks w (microtasks w ++ [j])).

Definition take_jobs : M (list Job) := fun w =>
  (microtasks w, with_microtasks w []).

Fixpoint forEach {A : Type} (f : A -> M unit) (l : list A) : M unit :=
  match l with
  | [] => ret tt
  | x :: rest => f x ;; forEach f rest
  end.

(** ** Token management *)

Module tokenManager.

Definition getToken : M (option string) := getItem TOKEN_STORAGE_KEY.

Definition setToken (token : string) : M unit :=
  setItem TOKEN_STORAGE_KEY token.

Definition getRefreshToken : M (option string) :=
  getItem REFRESH_TOKEN_STORAGE_KEY.

Definition setRefreshToken (token : string) : M unit :=
  setItem REFRESH_TOKEN_STORAGE_KEY token.

Definition clearTokens : M unit :=
  removeItem TOKEN_STORAGE_KEY ;;
  removeItem REFRESH_TOKEN_STORAGE_KEY.

Definition hasToken : M bool :=
  token <- getToken ;;
  ret (negb (negb (truthy token))).

End tokenManager.

(** ** The refresh state and the queue of failed requests *)

(** [prom.resolve(token)]: the promise is fulfilled and its [.then]
    reaction is queued as a microtask. *)
Definition resolve (prom : Deferred) (token : option string) : M unit :=
  emit (Resolved prom token) ;;
  enqueue_job (ThenJob prom).

(** [prom.reject(error)]: the rejection falls through [.then] to the
    [.catch] reaction. *)
Definition reject (prom : Deferred) (error : Thrown) : M unit :=
  emit (RejectedDeferred prom error) ;;
  enqueue_job (CatchJob prom error).

Definition processQueue (error : option Thrown) (token : option string)
    : M unit :=
  q <- get_failedQueue ;;
  forEach (fun prom =>
             match error with
             | Some e => reject prom e
             | None => resolve prom token
             end) q ;;
  set_failedQueue [].

(** ** The request interceptor *)

Definition set_Authorization (value : string)
    (config : InternalAxiosRequestConfig) : InternalAxiosRequestConfig :=
  set_headers (<["Authorization" := value]> (headers config)) config.

Definition request_interceptor (config : InternalAxiosRequestConfig)
    : M InternalAxiosRequestConfig :=
  token <- tokenManager.getToken ;;
  if_truthy token
    (fun token =>
       if truthy_object (headers config)
       then ret (set_Authorization ("Bearer " +:+ token) config)
       else ret config)
    (ret config).

(** [apiClient(config)]: the configuration passes through the request
    interceptor and is handed to the network.  The interceptor runs in a
    microtask of the task that called [apiClient]; no write to the store
    lies in between, so it is run here at the call. *)
Definition apiClient (config : InternalAxiosRequestConfig) : M unit :=
  config' <- request_interceptor config ;;
  emit (Sent config').

(** ** The response interceptor *)

(** [error.response?.status === n] *)
Definition status_is (n : Z) (error : AxiosError.t) : bool :=
  match AxiosError.response error with
  | Some r => Z.eqb (AxiosResponse.status r) n
  | None => false
  end.

(** The rejection handler up to its first [await] or [return].
    [originalRequest] aliases [error.config], so marking it marks the
    configuration the error carries. *)
Definition response_interceptor (error : AxiosError.t) : M unit :=
  let originalRequest := AxiosError.config error in
  if status_is 401 error && negb (_retry originalRequest) then
    refreshing <- get_isRefreshing ;;
    if refreshing then
      (* return new Promise(...).then(...).catch(...) *)
      push_failedQueue (mkDeferred originalRequest)
    else
      let originalRequest := set_retry true originalRequest in
      let error := AxiosError.set_config originalRequest error in
      set_isRefreshing true ;;
      refreshToken <- tokenManager.getRefreshToken ;;
      if_truthy refreshToken
        (fun refreshToken =>
           emit (PostRefresh refreshToken) ;;
           suspend originalRequest)
        (tokenManager.clearTokens ;;
         set_location_href "/login" ;;
         (* return Promise.reject(error) *)
         emit (Failed originalRequest (ThrownAxios error)))
  else
    emit (Failed originalRequest (ThrownAxios error)).

(** The rest of the handler, entered when the awaited refresh call
    settles: the [try] body after [await], the [catch] and the [finally]. *)
Definition response_interceptor_resume
    (originalRequest : InternalAxiosRequestConfig) (r : RefreshResult)
    : M unit :=
  match r with
  | RefreshOk data =>
      let newToken := token data in
      let newRefreshToken := refreshToken data in
      tokenManager.setToken newToken ;;
      if_truthy newRefreshToken tokenManager.setRefreshToken (ret tt) ;;
      processQueue None (Some newToken) ;;
      let originalRequest :=
        if truthy_object (headers originalRequest)
        then set_Authorization ("Bearer " +:+ newToken) originalRequest
        else originalRequest in
      apiClient originalRequest ;;
      (* finally *)
      set_isRefreshing false
  | RefreshErr refreshError =>
      (* catch (refreshError) *)
      processQueue (Some refreshError) None ;;
      tokenManager.clearTokens ;;
      set_location_href "/login" ;;
      (* finally *)
      set_isRefreshing false ;;
      (* return Promise.reject(refreshError) *)
      emit (Failed originalRequest refreshError)
  end.

(** The reactions registered on a queued promise:
    [.then(() => apiClient(originalRequest))] and
    [.catch((err) => Promise.reject(err))]. *)
Definition run_job (j : Job) : M unit :=
  match j with
  | ThenJob d => apiClient (waiting d)
  | CatchJob d err => emit (Failed (waiting d) err)
  end.

Definition drain_microtasks : M unit :=
  jobs <- take_jobs ;;
  forEach run_job jobs.

(** ** Authentication helpers *)

(** [loginWithToken] after [authApi.login] has answered with
    [responseData].  [api.updateConfiguration()] builds a configuration
    whose [accessToken] reads the store when called, so it changes nothing
    of the state modelled here. *)
Definition loginWithToken (responseData : AuthTokenResponse) : M unit :=
  if_truthy (auth_token responseData) tokenManager.setToken (ret tt) ;;
  if_truthy (auth_refreshToken responseData)
    tokenManager.setRefreshToken (ret tt).

(** The [finally] block of [logoutWithCleanup]. *)
Definition logoutWithCleanup : M unit := tokenManager.clearTokens.

Definition isAuthenticated : M bool := tokenManager.hasToken.

(** ** The event loop *)

(** What the environment can make happen: a request fails and its error
    reaches the response interceptor, the refresh call settles, a login
    request is answered, a logout finishes. *)
Inductive Event : Type :=
  | ResponseFailed (error : AxiosError.t)
  | RefreshSettled (r : RefreshResult)
  | LoggedIn (responseData : AuthTokenResponse)
  | LoggedOut.

(** The code an event runs. *)
Definition task (ev : Event) : M unit :=
  match ev with
  | ResponseFailed error => response_interceptor error
  | RefreshSettled r =>
      parked <- take_awaiting ;;
      match parked with
      | Some originalRequest => response_interceptor_resume originalRequest r
      | None => ret tt
      end
  | LoggedIn responseData => loginWithToken responseData
  | LoggedOut => logoutWithCleanup
  end.

(** One turn of the event loop: a task, then the microtasks it queued. *)
Definition step (ev : Event) : M unit :=
  task ev ;;
  drain_microtasks.

Definition run (evs : list Event) : M unit := forEach step evs.

(** ** Error normalisation *)

Module ApiError.
Record t : Type := mk {
  message : string;
  status : option Z;
  code : option string;
  details : option ErrorBody.t
}.
End ApiError.

(** [axiosError.response?.data?.message] and [...?.error] *)
Definition response_data (e : AxiosError.t) : option ErrorBody.t :=
  r ← AxiosError.response e; AxiosResponse.data r.

Definition data_message (e : AxiosError.t) : option string :=
  d ← response_data e; ErrorBody.message d.

Definition data_error (e : AxiosError.t) : option string :=
  d ← response_data e; ErrorBody.error d.

Definition handleApiError (error : Thrown) : ApiError.t :=
  match error with
  | ThrownAxios axiosError =>
      {| ApiError.message :=
           or_literal
             (or_else (or_else (data_message axiosError)
                               (data_error axiosError))
                      (Some (AxiosError.message axiosError)))
             "An unexpected error occurred";
         ApiError.status := AxiosResponse.status <$> AxiosError.response axiosError;
         ApiError.code := AxiosError.code axiosError;
         ApiError.details := response_data axiosError |}
  | ThrownError message =>
      {| ApiError.message := message;
         ApiError.status := None;
         ApiError.code := None;
         ApiError.details := None |}
  | ThrownOther =>
      {| ApiError.message := "An unknown error occurred";
         ApiError.status := None;
         ApiError.code := None;
         ApiError.details := None |}
  end.

(** ** Data-fetching defaults *)

(** [attemptIndex] counts failures, so it is a natural number; on those
    [1000 * 2 ** attemptIndex] is exact in double precision until it
    overflows to [Infinity], where [Math.min] still answers [30000]. *)

Module queryClient.

Record QueryDefaults : Type := mkQueries {
  staleTime : Z;
  gcTime : Z;
  retry : Z;
  retryDelay : nat -> Z;
  refetchOnWindowFocus : bool;
  refetchOnReconnect : bool;
  refetchOnMount : bool
}.

Record MutationDefaults : Type := mkMutations {
  mutation_retry : Z;
  mutation_retryDelay : nat -> Z
}.

Definition queries : QueryDefaults :=
  {| staleTime := 60 * 1000;
     gcTime := 5 * 60 * 1000;
     retry := 1;
     retryDelay := fun attemptIndex =>
       Z.min (1000 * 2 ^ Z.of_nat attemptIndex) 30000;
     refetchOnWindowFocus := false;
     refetchOnReconnect := true;
     refetchOnMount := true |}.

Definition mutations : MutationDefaults :=
  {| mutation_retry := 0;
     mutation_retryDelay :=
       fun attemptIndex => Z.min (1000 * 2 ^ Z.of_nat attemptIndex) 30000 |}.

End queryClient.

(** ** The OpenAPI configuration *)

(** The [accessToken] callback that [createOpenApiConfiguration] hands to
    the generated clients: [token || '']. *)
Definition accessToken : M string :=
  token <- tokenManager.getToken ;;
  ret (or_literal token "").

(** ** The hooks with loading and error state *)

(** [useApi]: one state object, replaced as a whole by every [setState]. *)
Module useApi.

Record UseApiState (T : Type) : Type := mkState {
  data : option T;
  error : option ApiError.t;
  loading : bool
}.
Arguments mkState {T} _ _ _.
Arguments data {T} _.
Arguments error {T} _.
Arguments loading {T} _.

(** [useState({ data: null, error: null, loading: false })] *)
Definition initial {T : Type} : UseApiState T := mkState None None false.

(** The moments at which the hook calls [setState]: [execute] is called,
    the awaited [apiFunction] answers with [response.data], it throws, and
    [reset] is called. *)
Inductive Moment (T : Type) : Type :=
  | ExecuteCalled
  | ExecuteFulfilled (response_data : T)
  | ExecuteRejected (thrown : Thrown)
  | ResetCalled.
Arguments ExecuteCalled {T}.
Arguments ExecuteFulfilled {T} _.
Arguments ExecuteRejected {T} _.
Arguments ResetCalled {T}.

Definition setState {T : Type} (m : Moment T) (prev : UseApiState T)
    : UseApiState T :=
  match m with
  | ExecuteCalled => mkState None None true
  | ExecuteFulfilled d => mkState (Some d) None false
  | ExecuteRejected thrown => mkState None (Some (handleApiError thrown)) false
  | ResetCalled => mkState None None false
  end.

(** What [execute] rethrows from its [catch]. *)
Definition rethrown (thrown : Thrown) : ApiError.t := handleApiError thrown.

Definition after {T : Type} (ms : list (Moment T)) (s : UseApiState T)
    : UseApiState T :=
  fold_left (fun s m => setState m s) ms s.

End useApi.

(** [useLoginManual]: three independent pieces of state. *)
Module useLoginManual.

Record State (T : Type) : Type := mkState {
  isLoading : bool;
  error : option ApiError.t;
  data : option T
}.
Arguments mkState {T} _ _ _.
Arguments isLoading {T} _.
Arguments error {T} _.
Arguments data {T} _.

Definition initial {T : Type} : State T := mkState false None None.

(** [performLogin] is called; [loginWithToken] answers; it throws the
    already normalised error; [reset] is called. *)
Inductive Moment (T : Type) : Type :=
  | PerformLoginCalled
  | LoginFulfilled (response : T)
  | LoginRejected (err : ApiError.t)
  | ResetCalled.
Arguments PerformLoginCalled {T}.
Arguments LoginFulfilled {T} _.
Arguments LoginRejected {T} _.
Arguments ResetCalled {T}.

Definition update {T : Type} (m : Moment T) (prev : State T) : State T :=
  match m with
  | PerformLoginCalled =>
      (* setIsLoading(true); setError(null) *)
      mkState true None (data prev)
  | LoginFulfilled response =>
      (* setData(response); finally setIsLoading(false) *)
      mkState false (error prev) (Some response)
  | LoginRejected err =>
      (* setError(apiError); finally setIsLoading(false) *)
      mkState false (Some err) (data prev)
  | ResetCalled => mkState false None None
  end.

Definition after {T : Type} (ms : list (Moment T)) (s : State T) : State T :=
  fold_left (fun s m => update m s) ms s.

End useLoginManual.

(** ** The warehouse page: in-memory lists behind the CRUD hooks *)

(** JavaScript numbers of the forms are modelled as integers; only their
    truthiness ([0] is falsy) matters below. *)
Definition truthy_number (n : option Z) : bool :=
  match n with
  | Some z => negb (Z.eqb z 0)
  | None => false
  end.

Definition truthy_bool (b : option bool) : bool :=
  match b with
  | Some x => x
  | None => false
  end.

(** [a || b] and [a ?? b] on nullable values. *)
Definition or_null {A : Type} (is_truthy : option A -> bool) (a : option A)
    : option A :=
  if is_truthy a then a else None.

Definition or_value {A : Type} (is_truthy : option A -> bool) (a : option A)
    (otherwise : A) : A :=
  match a with
  | Some x => if is_truthy a then x else otherwise
  | None => otherwise
  end.

Definition nullish {A : Type} (a : option A) (otherwise : A) : A :=
  match a with
  | Some x => x
  | None => otherwise
  end.

Module warehouses.

(** [WarehouseLocationResponse] as the hook builds it. *)
Record WarehouseLocationResponse : Type := mkWarehouse {
  id : string;
  zoneCode : option string;
  aisle : Z;
  shelf : Z;
  bin : option string;
  isOverstocked : bool
}.

(** [WarehouseLocationCreateRequest] and [WarehouseLocationUpdateRequest]:
    every property may be absent or [null]. *)
Record Request : Type := mkRequest {
  req_zoneCode : option string;
  req_aisle : option Z;
  req_shelf : option Z;
  req_bin : option string;
  req_isOverstocked : option bool
}.

(** [FormValues] of the warehouse form. *)
Record FormValues : Type := mkForm {
  form_zoneCode : option string;
  form_aisle : option Z;
  form_shelf : option Z;
  form_bin : option string;
  form_isOverstocked : option bool
}.

Definition MOCK_WAREHOUSES : list WarehouseLocationResponse :=
  [ mkWarehouse "1" (Some "A") 1 3 (Some "01") false;
    mkWarehouse "2" (Some "A") 2 5 (Some "02") true;
    mkWarehouse "3" (Some "B") 1 2 (Some "A1") false;
    mkWarehouse "4" (Some "B") 3 4 (Some "B2") false;
    mkWarehouse "5" (Some "C") 1 1 None true;
    mkWarehouse "6" None 5 2 (Some "03") false ].

(** [data?.field] *)
Definition field {A : Type} (data : option Request)
    (get : Request -> option A) : option A :=
  d ← data; get d.

(** The updater of [createWarehouse]; [now] is [Date.now().toString()]. *)
Definition createWarehouse (now : string) (data : option Request)
    (prev : list WarehouseLocationResponse) : list WarehouseLocationResponse :=
  let newWarehouse :=
    {| id := now;
       zoneCode := or_null truthy (field data req_zoneCode);
       aisle := or_value truthy_number (field data req_aisle) 0%Z;
       shelf := or_value truthy_number (field data req_shelf) 0%Z;
       bin := or_null truthy (field data req_bin);
       isOverstocked :=
         or_value truthy_bool (field data req_isOverstocked) false |} in
  prev ++ [newWarehouse].

(** The object an item with the given [id] is replaced by. *)
Definition patched (data : option Request) (item : WarehouseLocationResponse)
    : WarehouseLocationResponse :=
  {| id := id item;
     zoneCode :=
       match field data req_zoneCode with
       | Some z => Some z
       | None => zoneCode item
       end;
     aisle := nullish (field data req_aisle) (aisle item);
     shelf := nullish (field data req_shelf) (shelf item);
     bin :=
       match field data req_bin with
       | Some b => Some b
       | None => bin item
       end;
     isOverstocked :=
       nullish (field data req_isOverstocked) (isOverstocked item) |}.

Definition updateWarehouse (id' : string) (data : option Request)
    (prev : list WarehouseLocationResponse) : list WarehouseLocationResponse :=
  map (fun item => if String.eqb (id item) id' then patched data item else item)
    prev.

Definition deleteWarehouse (id' : string)
    (prev : list WarehouseLocationResponse) : list WarehouseLocationResponse :=
  List.filter (fun item => negb (String.eqb (id item) id')) prev.

(** The form: what [setFieldsValue] prefills when editing, and the
    [submitData] of [handleSubmit] in both modes. *)
Definition prefill (editingWarehouse : WarehouseLocationResponse) : FormValues :=
  {| form_zoneCode := or_null truthy (zoneCode editingWarehouse);
     form_aisle := Some (aisle editingWarehouse);
     form_shelf := Some (shelf editingWarehouse);
     form_bin := or_null truthy (bin editingWarehouse);
     form_isOverstocked :=
       Some (or_value truthy_bool (Some (isOverstocked editingWarehouse))
               false) |}.

Definition submitData_editing (values : FormValues) : Request :=
  {| req_zoneCode := or_null truthy (form_zoneCode values);
     req_aisle := or_null truthy_number (form_aisle values);
     req_shelf := or_null truthy_number (form_shelf values);
     req_bin := or_null truthy (form_bin values);
     req_isOverstocked := or_null truthy_bool (form_isOverstocked values) |}.

Definition submitData_creating (values : FormValues) : Request :=
  {| req_zoneCode := or_null truthy (form_zoneCode values);
     req_aisle := form_aisle values;
     req_shelf := form_shelf values;
     req_bin := or_null truthy (form_bin values);
     req_isOverstocked :=
       Some (or_value truthy_bool (form_isOverstocked values) false) |}.

(** [handleSubmitWarehouse] of the page, fed by the form's [handleSubmit]:
    an update of [editingWarehouse.id] when a record is being edited, a
    creation otherwise. *)
Definition handleSubmitWarehouse (now : string)
    (editingWarehouse : option WarehouseLocationResponse) (values : FormValues)
    (prev : list WarehouseLocationResponse) : list WarehouseLocationResponse :=
  match editingWarehouse with
  | Some record =>
      updateWarehouse (id record) (Some (submitData_editing values)) prev
  | None => createWarehouse now (Some (submitData_creating values)) prev
  end.

End warehouses.

Module partLocations.

Record PartLocationResponse : Type := mkPartLocation {
  id : string;
  partId : string;
  warehouseLocationId : string;
  quantityAtLocation : Z
}.

Record Request : Type := mkRequest {
  req_partId : option string;
  req_warehouseLocationId : option string;
  req_quantityAtLocation : option Z
}.

Definition field {A : Type} (data : option Request)
    (get : Request -> option A) : option A :=
  d ← data; get d.

Definition createPartLocation (now : string) (data : option Request)
    (prev : list PartLocationResponse) : list PartLocationResponse :=
  let newPartLocation :=
    {| id := now;
       partId := or_literal (field data req_partId) "";
       warehouseLocationId := or_literal (field data req_warehouseLocationId) "";
       quantityAtLocation :=
         or_value truthy_number (field data req_quantityAtLocation) 0%Z |} in
  prev ++ [newPartLocation].

Definition patched (data : option Request) (item : PartLocationResponse)
    : PartLocationResponse :=
  {| id := id item;
     partId := nullish (field data req_partId) (partId item);
     warehouseLocationId :=
       nullish (field data req_warehouseLocationId) (warehouseLocationId item);
     quantityAtLocation :=
       nullish (field data req_quantityAtLocation) (quantityAtLocation item) |}.

Definition updatePartLocation (id' : string) (data : option Request)
    (prev : list PartLocationResponse) : list PartLocationResponse :=
  map (fun item => if String.eqb (id item) id' then patched data item else item)
    prev.

Definition deletePartLocation (id' : string)
    (prev : list PartLocationResponse) : list PartLocationResponse :=
  List.filter (fun item => negb (String.eqb (id item) id')) prev.

End partLocations.

(** * Vocabulary of the properties *)

(** What the interceptor makes of [config] when the store is [storage]. *)
Definition intercepted (storage : gmap string string)
    (config : InternalAxiosRequestConfig) : InternalAxiosRequestConfig :=
  if_truthy (storage !! TOKEN_STORAGE_KEY)
    (fun token => set_Authorization ("Bearer " +:+ token) config)
    config.

(** The message the specification asks for: the first non-empty candidate
    in the order given, the generic string when there is none. *)
Fixpoint preferred_message (candidates : list (option string))
    (generic : string) : string :=
  match candidates with
  | [] => generic
  | c :: rest => if_truthy c (fun s => s) (preferred_message rest generic)
  end.

(** The candidates an error offers: the backend's [message], the
    backend's [error], the message of the error itself. *)
Definition message_candidates (error : Thrown) : list (option string) :=
  match error with
  | ThrownAxios e => [data_message e; data_error e; Some (AxiosError.message e)]
  | ThrownError m => [None; None; Some m]
  | ThrownOther => [None; None; None]
  end.

(** How [processQueue error token] settles one deferred, and the reaction
    it queues for it. *)
Definition settle_effect (error : option Thrown) (token : option string)
    (d : Deferred) : Effect :=
  match error with
  | Some e => RejectedDeferred d e
  | None => Resolved d token
  end.

Definition settle_job (error : option Thrown) (d : Deferred) : Job :=
  match error with
  | Some e => CatchJob d e
  | None => ThenJob d
  end.

(** The effect of a reaction run while the store is [storage]. *)
Definition job_effect (storage : gmap string string) (j : Job) : Effect :=
  match j with
  | ThenJob d => Sent (intercepted storage (waiting d))
  | CatchJob d err => Failed (waiting d) err
  end.

(** The store after a successful refresh answered [data], and the writes
    that lead there. *)
Definition refreshed_storage (data : RefreshData)
    (storage : gmap string string) : gmap string string :=
  if_truthy (refreshToken data)
    (fun r => <[REFRESH_TOKEN_STORAGE_KEY := r]>
                (<[TOKEN_STORAGE_KEY := token data]> storage))
    (<[TOKEN_STORAGE_KEY := token data]> storage).

Definition refresh_writes (data : RefreshData) : list Effect :=
  StorageSet TOKEN_STORAGE_KEY (token data)
    :: if_truthy (refreshToken data)
         (fun r => [StorageSet REFRESH_TOKEN_STORAGE_KEY r]) [].

(** The guard of the 401 branch:
    [error.response?.status === 401 && !originalRequest._retry]. *)
Definition handles_401 (error : AxiosError.t) : bool :=
  status_is 401 error && negb (_retry (AxiosError.config error)).

(** The request as the handler leaves it after [_retry = true], and the
    error that carries it. *)
Definition marked (error : AxiosError.t) : InternalAxiosRequestConfig :=
  set_retry true (AxiosError.config error).

Definition marked_error (error : AxiosError.t) : AxiosError.t :=
  AxiosError.set_config (marked error) error.

(** What holds between two tasks: at most one handler is parked at the
    refresh call, and then the flag is set; the queue is empty while the
    flag is clear; no microtask is left over. *)
Definition coherent (w : World) : Prop :=
  length (awaiting w) <= 1 /\
  (awaiting w ≠ [] -> isRefreshing w = true) /\
  (isRefreshing w = false -> failedQueue w = []) /\
  microtasks w = [].

Definition is_refresh_call (e : Effect) : bool :=
  match e with
  | PostRefresh _ => true
  | _ => false
  end.

(** How many times the refresh endpoint was called. *)
Definition refresh_calls (l : list Effect) : nat :=
  length (List.filter is_refresh_call l).

(** A queued request leaves the queue ([Resolved]) or a request goes out
    ([Sent]). *)
Definition is_release (e : Effect) : bool :=
  match e with
  | Resolved _ _ | Sent _ => true
  | _ => false
  end.

(** The settlements of deferred completions, in the order they happened. *)
Definition is_settlement (e : Effect) : bool :=
  match e with
  | Resolved _ _ | RejectedDeferred _ _ => true
  | _ => false
  end.

Definition settlements (l : list Effect) : list Effect :=
  List.filter is_settlement l.

(** How the outcome [r] of the refresh settles the deferred [d]. *)
Definition settled_by (r : RefreshResult) (d : Deferred) : Effect :=
  match r with
  | RefreshOk data => Resolved d (Some (token data))
  | RefreshErr err => RejectedDeferred d err
  end.

Definition sample_request (path : string) : InternalAxiosRequestConfig :=
  mkConfig path "get" ∅ false.

(** The error of a request answered with status 401. *)
Definition unauthorized (c : InternalAxiosRequestConfig) : AxiosError.t :=
  AxiosError.mk c (Some (AxiosResponse.mk 401 None))
    "Request failed with status code 401" (Some "ERR_BAD_REQUEST").

Definition logged_in_storage : gmap string string :=
  <[REFRESH_TOKEN_STORAGE_KEY := "r0"]> (<[TOKEN_STORAGE_KEY := "a0"]> ∅).

(** Two requests were answered 401 one after the other on a logged-in
    page: the first started the refresh, the second is queued. *)
Definition refreshing_world : World :=
  exec (run [ResponseFailed (unauthorized (sample_request "/api/v1/customers"));
             ResponseFailed (unauthorized (sample_request "/api/v1/products"))])
    (init logged_in_storage "/dashboard").

(** The requests handed to the network and the failures handed to
    callers, as the log records them. *)
Definition requests_sent (l : list Effect) : list InternalAxiosRequestConfig :=
  List.flat_map (fun e => match e with Sent c => [c] | _ => [] end) l.

Definition failures (l : list Effect)
    : list (InternalAxiosRequestConfig * Thrown) :=
  List.flat_map
    (fun e => match e with Failed c err => [(c, err)] | _ => [] end) l.

(** The states the page can be in between two tasks. *)
Definition reachable (w : World) : Prop :=
  exists storage href history, w = exec (run history) (init storage href).

(** The events that are not the answer to a login request. *)
Definition is_login (ev : Event) : bool :=
  match ev with
  | LoggedIn _ => true
  | _ => false
  end.

(** The one situation in which a turn of the event loop calls the refresh
    endpoint: a 401 for a request not yet retried, handled while the flag
    is clear and a non-empty refresh token is stored. *)
Definition starts_refresh (w : World) (ev : Event) : bool :=
  match ev with
  | ResponseFailed error =>
      handles_401 error && negb (isRefreshing w)
        && truthy (localStorage w !! REFRESH_TOKEN_STORAGE_KEY)
  | _ => false
  end.

(** The queued requests are unmarked and the parked one is marked. *)
Definition markers_consistent (w : World) : Prop :=
  Forall (fun d => _retry (waiting d) = false) (failedQueue w) /\
  Forall (fun c => _retry c = true) (awaiting w).

(** * Properties *)

(** ** Truthiness *)

Lemma truthy_string_true (s : string) : truthy_string s = true <-> s ≠ "".
Proof.
  unfold truthy_string, truthy.
  destruct (String.eqb_spec s ""); simpl; split; congruence.
Qed.

Lemma truthy_true (v : option string) :
  truthy v = true <-> exists s, v = Some s /\ s ≠ "".
Proof.
  destruct v as [s|]; simpl.
  - change (negb (String.eqb s "")) with (truthy_string s).
    rewrite truthy_string_true. split.
    + intros H. exists s. auto.
    + intros (s' & [= <-] & H). exact H.
  - split; [discriminate | intros (s & [=] & _)].
Qed.

Lemma if_truthy_yes {A : Type} (s : string) (yes : string -> A) (no : A) :
  s ≠ "" -> if_truthy (Some s) yes no = yes s.
Proof.
  intros H. apply truthy_string_true in H. unfold if_truthy. by rewrite H.
Qed.

Lemma if_truthy_no {A : Type} (v : option string) (yes : string -> A) (no : A) :
  truthy v = false -> if_truthy v yes no = no.
Proof.
  destruct v as [s|]; [|done]. unfold if_truthy, truthy_string. by intros ->.
Qed.

(** ** The token store *)

Lemma getToken_run (w : World) :
  tokenManager.getToken w = (localStorage w !! TOKEN_STORAGE_KEY, w).
Proof. reflexivity. Qed.

Lemma hasToken_run (w : World) :
  tokenManager.hasToken w = (truthy (localStorage w !! TOKEN_STORAGE_KEY), w).
Proof.
  unfold tokenManager.hasToken, bind, ret. rewrite getToken_run.
  by rewrite negb_involutive.
Qed.

(** C10. [hasToken()], and with it [isAuthenticated()], answers [true]
    exactly when the access-token entry of the store holds a non-empty
    string; an entry holding the empty string is present in the store and
    still makes [hasToken()] answer [false].  Neither call changes the
    state. *)
Theorem hasToken_iff_nonempty_token (w : World) :
  (eval tokenManager.hasToken w = true <->
     exists t, localStorage w !! TOKEN_STORAGE_KEY = Some t /\ t ≠ "") /\
  eval isAuthenticated w = eval tokenManager.hasToken w /\
  (let w0 := exec (tokenManager.setToken "") w in
   localStorage w0 !! TOKEN_STORAGE_KEY = Some "" /\
   eval tokenManager.hasToken w0 = false) /\
  exec tokenManager.hasToken w = w.
Proof.
  unfold eval, exec, isAuthenticated. rewrite !hasToken_run. simpl.
  split; [apply truthy_true |]. split; [done |]. split; [| done].
  rewrite lookup_insert_eq. done.
Qed.

(** ** The request interceptor *)

Lemma request_interceptor_run (config : InternalAxiosRequestConfig) (w : World) :
  request_interceptor config w = (intercepted (localStorage w) config, w).
Proof.
  unfold request_interceptor, intercepted, bind. rewrite getToken_run.
  unfold if_truthy, truthy_object, ret.
  destruct (localStorage w !! TOKEN_STORAGE_KEY) as [t|]; [|done].
  by destruct (truthy_string t).
Qed.

Lemma apiClient_run (config : InternalAxiosRequestConfig) (w : World) :
  apiClient config w =
  (tt, with_log w (log w ++ [Sent (intercepted (localStorage w) config)])).
Proof.
  unfold apiClient, bind. by rewrite request_interceptor_run.
Qed.

Lemma intercepted_token (storage : gmap string string) (t : string)
    (config : InternalAxiosRequestConfig) :
  storage !! TOKEN_STORAGE_KEY = Some t -> t ≠ "" ->
  intercepted storage config = set_Authorization ("Bearer " +:+ t) config.
Proof.
  intros Hs Ht. unfold intercepted. rewrite Hs. by rewrite if_truthy_yes.
Qed.

Lemma loginWithToken_run (w : World) (t r : string) :
  t ≠ "" -> r ≠ "" ->
  exec (loginWithToken (mkAuth (Some t) (Some r))) w =
  mkWorld
    (<[REFRESH_TOKEN_STORAGE_KEY := r]>
       (<[TOKEN_STORAGE_KEY := t]> (localStorage w)))
    (isRefreshing w) (failedQueue w) (location_href w) (awaiting w)
    (microtasks w)
    ((log w ++ [StorageSet TOKEN_STORAGE_KEY t])
       ++ [StorageSet REFRESH_TOKEN_STORAGE_KEY r]).
Proof.
  intros Ht Hr. unfold loginWithToken, auth_token, auth_refreshToken.
  rewrite (if_truthy_yes t), (if_truthy_yes r) by done.
  reflexivity.
Qed.

(** C8. The request interceptor never fails and never changes the state.
    When the store holds an access token ([hasToken()] is true) the
    request leaves with [Authorization: Bearer <that token>] and is
    otherwise as it was; when it holds none the request is returned
    unchanged.  After a login whose response carries an access and a
    refresh token both are stored, and every request passed through the
    interceptor from that state carries the stored access token. *)
Theorem request_interceptor_attaches_bearer
    (w : World) (config : InternalAxiosRequestConfig) :
  exec (request_interceptor config) w = w /\
  (eval tokenManager.hasToken w = true ->
     exists t, localStorage w !! TOKEN_STORAGE_KEY = Some t /\
       eval (request_interceptor config) w =
         set_headers (<["Authorization" := "Bearer " +:+ t]> (headers config))
           config) /\
  (eval tokenManager.hasToken w = false ->
     eval (request_interceptor config) w = config) /\
  (forall t r : string, t ≠ "" -> r ≠ "" ->
     let w' := exec (loginWithToken (mkAuth (Some t) (Some r))) w in
     localStorage w' !! TOKEN_STORAGE_KEY = Some t /\
     localStorage w' !! REFRESH_TOKEN_STORAGE_KEY = Some r /\
     forall request : InternalAxiosRequestConfig,
       headers (eval (request_interceptor request) w') !! "Authorization"
         = Some ("Bearer " +:+ t) /\
       log (exec (apiClient request) w') =
         log w' ++ [Sent (set_Authorization ("Bearer " +:+ t) request)]).
Proof.
  unfold eval, exec. rewrite hasToken_run, request_interceptor_run. simpl.
  split; [done |]. split; [| split].
  - intros (t & Ht & Hne)%truthy_true. exists t. split; [done |].
    by apply intercepted_token.
  - intros H. unfold intercepted. by apply if_truthy_no.
  - intros t r Ht Hr.
    pose proof (loginWithToken_run w t r Ht Hr) as Hrun.
    unfold exec in Hrun. rewrite Hrun. simpl.
    assert (Hacc : <[REFRESH_TOKEN_STORAGE_KEY := r]>
                     (<[TOKEN_STORAGE_KEY := t]> (localStorage w))
                     !! TOKEN_STORAGE_KEY = Some t).
    { rewrite lookup_insert_ne by done. apply lookup_insert_eq. }
    split; [exact Hacc |]. split; [apply lookup_insert_eq |].
    intros request. rewrite request_interceptor_run, apiClient_run. simpl.
    rewrite (intercepted_token _ t) by done.
    split; [apply lookup_insert_eq | done].
Qed.

Lemma request_interceptor_attaches_bearer_witness :
  let w := init {[ TOKEN_STORAGE_KEY := "abc" ]} "/dashboard" in
  let config := mkConfig "/api/v1/warehouses" "get" ∅ false in
  eval (request_interceptor config) w =
    mkConfig "/api/v1/warehouses" "get" {[ "Authorization" := "Bearer abc" ]}
      false /\
  eval (request_interceptor config) (init ∅ "/dashboard") = config /\
  headers (eval (request_interceptor config)
             (exec (loginWithToken (mkAuth (Some "t1") (Some "r1")))
                (init ∅ "/login")))
    !! "Authorization" = Some "Bearer t1".
Proof.
  intros w config.
  destruct (request_interceptor_attaches_bearer w config)
    as (_ & Hyes & _ & _).
  destruct (request_interceptor_attaches_bearer (init ∅ "/dashboard") config)
    as (_ & _ & Hno & _).
  destruct (request_interceptor_attaches_bearer (init ∅ "/login") config)
    as (_ & _ & _ & Hlogin).
  split; [| split].
  - destruct Hyes as (t & Ht & ->); [reflexivity |].
    vm_compute in Ht. injection Ht as <-. reflexivity.
  - apply Hno. reflexivity.
  - destruct (Hlogin "t1" "r1") as (_ & _ & Hreq); [done | done |].
    apply (Hreq config).
Defined.

(** ** Data-fetching defaults *)

Lemma retryDelay_unfold (attemptIndex : nat) :
  queryClient.retryDelay queryClient.queries attemptIndex =
  Z.min (1000 * 2 ^ Z.of_nat attemptIndex) 30000.
Proof. reflexivity. Qed.

Lemma retryDelay_doubles (attemptIndex : nat) :
  queryClient.retryDelay queryClient.queries (S attemptIndex) =
  Z.min (2 * queryClient.retryDelay queryClient.queries attemptIndex) 30000.
Proof.
  rewrite !retryDelay_unfold, Nat2Z.inj_succ, Z.pow_succ_r by lia.
  lia.
Qed.

(** C9. The defaults of the query client: a result is fresh for 60 000 ms
    and collected after 300 000 ms of inactivity; a failed query is retried
    once; the retry delay starts at 1000 ms, doubles with every attempt and
    is capped at 30 000 ms; queries are refetched on reconnect and on
    mount, not on window focus; a mutation is retried zero times. *)
Theorem queryClient_defaults :
  queryClient.staleTime queryClient.queries = (60 * 1000)%Z /\
  queryClient.gcTime queryClient.queries = (5 * 60 * 1000)%Z /\
  queryClient.retry queryClient.queries = 1%Z /\
  queryClient.retryDelay queryClient.queries 0 = 1000%Z /\
  (forall attemptIndex : nat,
     queryClient.retryDelay queryClient.queries (S attemptIndex) =
       Z.min (2 * queryClient.retryDelay queryClient.queries attemptIndex)
         30000 /\
     (0 < queryClient.retryDelay queryClient.queries attemptIndex <= 30000)%Z)
  /\
  queryClient.refetchOnReconnect queryClient.queries = true /\
  queryClient.refetchOnMount queryClient.queries = true /\
  queryClient.refetchOnWindowFocus queryClient.queries = false /\
  queryClient.mutation_retry queryClient.mutations = 0%Z.
Proof.
  repeat split; try reflexivity.
  - apply retryDelay_doubles.
  - rewrite retryDelay_unfold.
    assert (0 < 2 ^ Z.of_nat attemptIndex)%Z by (apply Z.pow_pos_nonneg; lia).
    lia.
  - rewrite retryDelay_unfold. lia.
Qed.

(** ** Error normalisation *)

Lemma or_literal_preferred (a : option string) (literal : string) :
  or_literal a literal = preferred_message [a] literal.
Proof.
  unfold or_literal, or_else, preferred_message, if_truthy, truthy_string.
  destruct a as [s|]; simpl; [| done].
  by destruct (negb (String.eqb s "")).
Qed.

Lemma if_truthy_or_else (a b : option string) (no : string) :
  if_truthy (or_else a b) (fun s => s) no =
  if_truthy a (fun s => s) (if_truthy b (fun s => s) no).
Proof.
  unfold or_else. destruct a as [s|]; [| done].
  unfold truthy, if_truthy at 2, truthy_string, truthy.
  destruct (negb (String.eqb s "")) eqn:Hs; [| done].
  unfold if_truthy, truthy_string, truthy. by rewrite Hs.
Qed.

Lemma handleApiError_axios_message (e : AxiosError.t) :
  ApiError.message (handleApiError (ThrownAxios e)) =
  preferred_message (message_candidates (ThrownAxios e))
    "An unexpected error occurred".
Proof.
  cbn [handleApiError ApiError.message message_candidates].
  rewrite or_literal_preferred. cbn [preferred_message].
  by rewrite !if_truthy_or_else.
Qed.

Lemma preferred_message_nonempty (candidates : list (option string))
    (generic : string) :
  generic ≠ "" -> preferred_message candidates generic ≠ "".
Proof.
  intros Hg. induction candidates as [| c rest IH]; simpl; [done |].
  destruct c as [s|]; simpl; [| done].
  destruct (truthy_string s) eqn:Hs; [| done].
  by apply truthy_string_true.
Qed.

(** C7, as the code has it.  For an error raised by the HTTP client the
    message is the backend's [message] field, else its [error] field, else
    the error's own message, else ["An unexpected error occurred"], each
    passed over when absent or empty, so the message is never empty; the
    status is the status of the HTTP response and is absent exactly when
    there is no response, as after a network timeout.  Any other [Error]
    keeps its own message as it is and any other value gets
    ["An unknown error occurred"], both without a status. *)
Theorem handleApiError_normalises :
  (forall e : AxiosError.t,
     let n := handleApiError (ThrownAxios e) in
     ApiError.message n =
       preferred_message
         [data_message e; data_error e; Some (AxiosError.message e)]
         "An unexpected error occurred" /\
     ApiError.message n ≠ "" /\
     ApiError.status n = AxiosResponse.status <$> AxiosError.response e /\
     (ApiError.status n = None <-> AxiosError.response e = None)) /\
  (forall message : string,
     ApiError.message (handleApiError (ThrownError message)) = message /\
     ApiError.status (handleApiError (ThrownError message)) = None) /\
  ApiError.message (handleApiError ThrownOther) = "An unknown error occurred" /\
  ApiError.status (handleApiError ThrownOther) = None.
Proof.
  split; [| by repeat split].
  intros e n. subst n. rewrite handleApiError_axios_message.
  split; [done |]. split; [by apply preferred_message_nonempty |].
  split; [done |]. simpl.
  destruct (AxiosError.response e); simpl; split; congruence.
Qed.

(** C7 as the specification words it: one preference order ending in one
    generic string, for every input.  No generic string makes that true:
    a value that is not an [Error] gets ["An unknown error occurred"],
    while an [Error] with an empty message, which is not an error of the
    HTTP client, keeps its empty message. *)
Lemma handleApiError_not_one_preference_order :
  ApiError.message (handleApiError (ThrownError "")) = "" /\
  ~ (exists generic : string,
       forall error : Thrown,
         ApiError.message (handleApiError error) =
         preferred_message (message_candidates error) generic).
Proof.
  split; [reflexivity |].
  intros (generic & H).
  pose proof (H ThrownOther) as Hother.
  pose proof (H (ThrownError "")) as Hempty.
  simpl in Hother, Hempty. congruence.
Qed.

(** ** The refresh coordinator: what each piece of a task does *)

Ltac project :=
  cbn [fst snd localStorage isRefreshing failedQueue location_href awaiting
       microtasks log with_localStorage with_isRefreshing with_failedQueue
       with_location_href with_awaiting with_microtasks with_log].

Ltac run_js :=
  unfold processQueue, resolve, reject, drain_microtasks, take_jobs,
    tokenManager.clearTokens, tokenManager.setToken,
    tokenManager.setRefreshToken, tokenManager.getRefreshToken,
    set_location_href, setItem, removeItem, getItem, suspend,
    push_failedQueue, enqueue_job, set_failedQueue, get_failedQueue,
    set_isRefreshing, get_isRefreshing, emit, modify, bind, ret;
  cbn [fst snd localStorage isRefreshing failedQueue location_href awaiting
       microtasks log with_localStorage with_isRefreshing with_failedQueue
       with_location_href with_awaiting with_microtasks with_log].

Lemma forEach_settles {A : Type} (f : A -> M unit)
    (eff : A -> Effect) (job : A -> Job) :
  (forall x w, f x w =
     (tt, with_microtasks (with_log w (log w ++ [eff x]))
            (microtasks w ++ [job x]))) ->
  forall (l : list A) (w : World),
    forEach f l w =
    (tt, mkWorld (localStorage w) (isRefreshing w) (failedQueue w)
           (location_href w) (awaiting w)
           (microtasks w ++ map job l) (log w ++ map eff l)).
Proof.
  intros Hf l. induction l as [| x l IH]; intros w; cbn [forEach map].
  - rewrite !app_nil_r. by destruct w.
  - unfold bind. rewrite Hf, IH. run_js. by rewrite <- !app_assoc.
Qed.

Lemma forEach_logs {A : Type} (f : A -> M unit)
    (eff : gmap string string -> A -> Effect) :
  (forall x w, f x w = (tt, with_log w (log w ++ [eff (localStorage w) x]))) ->
  forall (l : list A) (w : World),
    forEach f l w =
    (tt, with_log w (log w ++ map (eff (localStorage w)) l)).
Proof.
  intros Hf l. induction l as [| x l IH]; intros w; cbn [forEach map].
  - rewrite app_nil_r. by destruct w.
  - unfold bind. rewrite Hf, IH. run_js. by rewrite <- app_assoc.
Qed.

Lemma processQueue_run (error : option Thrown) (token : option string)
    (w : World) :
  processQueue error token w =
  (tt, mkWorld (localStorage w) (isRefreshing w) [] (location_href w)
         (awaiting w)
         (microtasks w ++ map (settle_job error) (failedQueue w))
         (log w ++ map (settle_effect error token) (failedQueue w))).
Proof.
  unfold processQueue, get_failedQueue, bind at 1 2.
  rewrite (forEach_settles _ (settle_effect error token) (settle_job error)).
  - by run_js.
  - intros d w'. by destruct error.
Qed.

Lemma drain_microtasks_run (w : World) :
  drain_microtasks w =
  (tt, mkWorld (localStorage w) (isRefreshing w) (failedQueue w)
         (location_href w) (awaiting w) []
         (log w ++ map (job_effect (localStorage w)) (microtasks w))).
Proof.
  unfold drain_microtasks, take_jobs, bind.
  rewrite (forEach_logs _ job_effect); [done |].
  intros [d | d err] w'; [apply apiClient_run | done].
Qed.

Lemma response_interceptor_passes (error : AxiosError.t) (w : World) :
  handles_401 error = false ->
  response_interceptor error w =
  (tt, with_log w
         (log w ++ [Failed (AxiosError.config error) (ThrownAxios error)])).
Proof.
  unfold handles_401, response_interceptor. by intros ->.
Qed.

Lemma response_interceptor_queues (error : AxiosError.t) (w : World) :
  handles_401 error = true -> isRefreshing w = true ->
  response_interceptor error w =
  (tt, with_failedQueue w
         (failedQueue w ++ [mkDeferred (AxiosError.config error)])).
Proof.
  unfold handles_401, response_interceptor. intros -> Hr.
  run_js. by rewrite Hr.
Qed.

Lemma response_interceptor_starts (error : AxiosError.t) (w : World)
    (rt : string) :
  handles_401 error = true -> isRefreshing w = false ->
  localStorage w !! REFRESH_TOKEN_STORAGE_KEY = Some rt -> rt ≠ "" ->
  response_interceptor error w =
  (tt, mkWorld (localStorage w) true (failedQueue w) (location_href w)
         (awaiting w ++ [marked error]) (microtasks w)
         (log w ++ [PostRefresh rt])).
Proof.
  unfold handles_401, response_interceptor. intros -> Hr Hs Hne.
  run_js. rewrite Hr, Hs, if_truthy_yes by done. by run_js.
Qed.

Lemma response_interceptor_gives_up (error : AxiosError.t) (w : World) :
  handles_401 error = true -> isRefreshing w = false ->
  truthy (localStorage w !! REFRESH_TOKEN_STORAGE_KEY) = false ->
  response_interceptor error w =
  (tt, mkWorld
         (delete REFRESH_TOKEN_STORAGE_KEY
            (delete TOKEN_STORAGE_KEY (localStorage w)))
         true (failedQueue w) "/login" (awaiting w) (microtasks w)
         (log w ++ [StorageRemove TOKEN_STORAGE_KEY;
                    StorageRemove REFRESH_TOKEN_STORAGE_KEY;
                    Redirect "/login";
                    Failed (marked error) (ThrownAxios (marked_error error))])).
Proof.
  unfold handles_401, response_interceptor. intros -> Hr Hs.
  run_js. rewrite Hr, if_truthy_no by done. run_js.
  by rewrite <- !app_assoc.
Qed.

Lemma setToken_run (t : string) (w : World) :
  tokenManager.setToken t w =
  (tt, with_log (with_localStorage w (<[TOKEN_STORAGE_KEY := t]> (localStorage w)))
         (log w ++ [StorageSet TOKEN_STORAGE_KEY t])).
Proof. by run_js. Qed.

Lemma setRefreshToken_if_truthy (data : RefreshData) (w : World) :
  if_truthy (refreshToken data) tokenManager.setRefreshToken (ret tt)
    (with_log
       (with_localStorage w (<[TOKEN_STORAGE_KEY := token data]> (localStorage w)))
       (log w ++ [StorageSet TOKEN_STORAGE_KEY (token data)])) =
  (tt, with_log (with_localStorage w (refreshed_storage data (localStorage w)))
         (log w ++ refresh_writes data)).
Proof.
  unfold refreshed_storage, refresh_writes, if_truthy.
  destruct (refreshToken data) as [r|]; [destruct (truthy_string r) |];
    run_js; by rewrite <- ?app_assoc.
Qed.

Lemma resume_fulfilled (originalRequest : InternalAxiosRequestConfig)
    (data : RefreshData) (w : World) :
  response_interceptor_resume originalRequest (RefreshOk data) w =
  let storage := refreshed_storage data (localStorage w) in
  (tt, mkWorld storage false [] (location_href w) (awaiting w)
         (microtasks w ++ map ThenJob (failedQueue w))
         (log w ++ refresh_writes data
            ++ map (fun d => Resolved d (Some (token data))) (failedQueue w)
            ++ [Sent (intercepted storage
                        (set_Authorization ("Bearer " +:+ token data)
                           originalRequest))])).
Proof.
  unfold response_interceptor_resume.
  unfold bind at 1. rewrite setToken_run.
  unfold bind at 1. rewrite setRefreshToken_if_truthy.
  unfold bind at 1. rewrite processQueue_run.
  unfold truthy_object. unfold bind at 1. rewrite apiClient_run.
  run_js. by rewrite <- !app_assoc.
Qed.

Lemma resume_rejected (originalRequest : InternalAxiosRequestConfig)
    (refreshError : Thrown) (w : World) :
  response_interceptor_resume originalRequest (RefreshErr refreshError) w =
  (tt, mkWorld
         (delete REFRESH_TOKEN_STORAGE_KEY
            (delete TOKEN_STORAGE_KEY (localStorage w)))
         false [] "/login" (awaiting w)
         (microtasks w ++ map (fun d => CatchJob d refreshError) (failedQueue w))
         (log w
            ++ map (fun d => RejectedDeferred d refreshError) (failedQueue w)
            ++ [StorageRemove TOKEN_STORAGE_KEY;
                StorageRemove REFRESH_TOKEN_STORAGE_KEY;
                Redirect "/login";
                Failed originalRequest refreshError])).
Proof.
  unfold response_interceptor_resume.
  unfold bind at 1. rewrite processQueue_run.
  run_js. by rewrite <- !app_assoc.
Qed.

(** ** One turn of the event loop *)

Lemma step_run (ev : Event) (w : World) :
  step ev w =
  let w1 := exec (task ev) w in
  (tt, mkWorld (localStorage w1) (isRefreshing w1) (failedQueue w1)
         (location_href w1) (awaiting w1) []
         (log w1 ++ map (job_effect (localStorage w1)) (microtasks w1))).
Proof.
  unfold step, bind, exec. destruct (task ev w) as [[] w1].
  apply drain_microtasks_run.
Qed.

Lemma step_passes (error : AxiosError.t) (w : World) :
  handles_401 error = false -> microtasks w = [] ->
  step (ResponseFailed error) w =
  (tt, with_log w
         (log w ++ [Failed (AxiosError.config error) (ThrownAxios error)])).
Proof.
  intros H Hm. rewrite step_run. unfold exec, task.
  rewrite response_interceptor_passes by done. cbn. rewrite Hm, app_nil_r.
  destruct w; cbn in *; by subst.
Qed.

Lemma step_queues (error : AxiosError.t) (w : World) :
  handles_401 error = true -> isRefreshing w = true -> microtasks w = [] ->
  step (ResponseFailed error) w =
  (tt, with_failedQueue w
         (failedQueue w ++ [mkDeferred (AxiosError.config error)])).
Proof.
  intros H Hr Hm. rewrite step_run. unfold exec, task.
  rewrite response_interceptor_queues by done. cbn. rewrite Hm, app_nil_r.
  destruct w; cbn in *; by subst.
Qed.

Lemma step_starts (error : AxiosError.t) (w : World) (rt : string) :
  handles_401 error = true -> isRefreshing w = false ->
  localStorage w !! REFRESH_TOKEN_STORAGE_KEY = Some rt -> rt ≠ "" ->
  microtasks w = [] ->
  step (ResponseFailed error) w =
  (tt, mkWorld (localStorage w) true (failedQueue w) (location_href w)
         (awaiting w ++ [marked error]) [] (log w ++ [PostRefresh rt])).
Proof.
  intros H Hr Hs Hne Hm. rewrite step_run. unfold exec, task.
  rewrite (response_interceptor_starts error w rt) by done. cbn.
  by rewrite Hm, app_nil_r.
Qed.

Lemma step_gives_up (error : AxiosError.t) (w : World) :
  handles_401 error = true -> isRefreshing w = false ->
  truthy (localStorage w !! REFRESH_TOKEN_STORAGE_KEY) = false ->
  microtasks w = [] ->
  step (ResponseFailed error) w =
  (tt, mkWorld
         (delete REFRESH_TOKEN_STORAGE_KEY
            (delete TOKEN_STORAGE_KEY (localStorage w)))
         true (failedQueue w) "/login" (awaiting w) []
         (log w ++ [StorageRemove TOKEN_STORAGE_KEY;
                    StorageRemove REFRESH_TOKEN_STORAGE_KEY;
                    Redirect "/login";
                    Failed (marked error) (ThrownAxios (marked_error error))])).
Proof.
  intros H Hr Hs Hm. rewrite step_run. unfold exec, task.
  rewrite response_interceptor_gives_up by done. cbn.
  by rewrite Hm, app_nil_r.
Qed.

Lemma task_settled (c : InternalAxiosRequestConfig)
    (rest : list InternalAxiosRequestConfig) (r : RefreshResult) (w : World) :
  awaiting w = c :: rest ->
  task (RefreshSettled r) w =
  response_interceptor_resume c r (with_awaiting w rest).
Proof. intros Ha. unfold task, take_awaiting, bind. by rewrite Ha. Qed.

Lemma task_settled_idle (r : RefreshResult) (w : World) :
  awaiting w = [] -> task (RefreshSettled r) w = (tt, w).
Proof. intros Ha. unfold task, take_awaiting, bind. by rewrite Ha. Qed.

Lemma step_settled_fulfilled (c : InternalAxiosRequestConfig)
    (rest : list InternalAxiosRequestConfig) (data : RefreshData) (w : World) :
  awaiting w = c :: rest -> microtasks w = [] ->
  step (RefreshSettled (RefreshOk data)) w =
  let storage := refreshed_storage data (localStorage w) in
  (tt, mkWorld storage false [] (location_href w) rest []
         (log w ++ refresh_writes data
            ++ map (fun d => Resolved d (Some (token data))) (failedQueue w)
            ++ Sent (intercepted storage
                       (set_Authorization ("Bearer " +:+ token data) c))
            :: map (fun d => Sent (intercepted storage (waiting d)))
                 (failedQueue w))).
Proof.
  intros Ha Hm. rewrite step_run. unfold exec.
  rewrite (task_settled c rest), resume_fulfilled by done. project.
  rewrite Hm. cbn [app]. rewrite map_map. cbn [job_effect].
  by rewrite <- !app_assoc.
Qed.

Lemma step_settled_rejected (c : InternalAxiosRequestConfig)
    (rest : list InternalAxiosRequestConfig) (err : Thrown) (w : World) :
  awaiting w = c :: rest -> microtasks w = [] ->
  step (RefreshSettled (RefreshErr err)) w =
  (tt, mkWorld
         (delete REFRESH_TOKEN_STORAGE_KEY
            (delete TOKEN_STORAGE_KEY (localStorage w)))
         false [] "/login" rest []
         (log w
            ++ map (fun d => RejectedDeferred d err) (failedQueue w)
            ++ [StorageRemove TOKEN_STORAGE_KEY;
                StorageRemove REFRESH_TOKEN_STORAGE_KEY;
                Redirect "/login";
                Failed c err]
            ++ map (fun d => Failed (waiting d) err) (failedQueue w))).
Proof.
  intros Ha Hm. rewrite step_run. unfold exec.
  rewrite (task_settled c rest), resume_rejected by done. project.
  rewrite Hm. cbn [app]. rewrite map_map. cbn [job_effect].
  by rewrite <- !app_assoc.
Qed.

(** ** Invariants of the event loop *)

Lemma exec_run_cons (ev : Event) (evs : list Event) (w : World) :
  exec (run (ev :: evs)) w = exec (run evs) (exec (step ev) w).
Proof.
  unfold exec, run. cbn [forEach]. unfold bind.
  by destruct (step ev w) as [[] w1].
Qed.

Lemma exec_run_nil (w : World) : exec (run []) w = w.
Proof. reflexivity. Qed.

Lemma exec_run_app (evs1 evs2 : list Event) (w : World) :
  exec (run (evs1 ++ evs2)) w = exec (run evs2) (exec (run evs1) w).
Proof.
  revert w. induction evs1 as [| ev evs1 IH]; intros w; [done |].
  cbn [app]. by rewrite !exec_run_cons, IH.
Qed.

Lemma login_frame (responseData : AuthTokenResponse) (w : World) :
  let w' := exec (loginWithToken responseData) w in
  isRefreshing w' = isRefreshing w /\ failedQueue w' = failedQueue w /\
  awaiting w' = awaiting w /\ microtasks w' = microtasks w.
Proof.
  unfold loginWithToken, if_truthy, exec.
  destruct (auth_token responseData) as [t|];
    destruct (auth_refreshToken responseData) as [r|];
    try destruct (truthy_string t); try destruct (truthy_string r);
    by run_js.
Qed.

Lemma coherent_init (storage : gmap string string) (href : string) :
  coherent (init storage href).
Proof. repeat split; cbn; (lia || done). Qed.

Ltac solve_coherent :=
  unfold coherent; project; repeat split;
  try (intros; cbn in *; first [done | lia | congruence | auto]).

Lemma coherent_step (ev : Event) (w : World) :
  coherent w -> coherent (exec (step ev) w).
Proof.
  intros (Hlen & Hpark & Hidle & Hm).
  destruct ev as [error | r | responseData |].
  - destruct (handles_401 error) eqn:H401.
    + destruct (isRefreshing w) eqn:Hr.
      * unfold exec. rewrite step_queues by done. solve_coherent.
      * assert (Ha : awaiting w = []).
        { destruct (awaiting w) eqn:Ha; [done |].
          by discriminate Hpark. }
        destruct (truthy (localStorage w !! REFRESH_TOKEN_STORAGE_KEY))
          eqn:Hrt.
        -- apply truthy_true in Hrt as (rt & Hrt & Hne).
           unfold exec. rewrite (step_starts error w rt) by done.
           rewrite Ha. solve_coherent.
        -- unfold exec. rewrite step_gives_up by done.
           rewrite Ha. solve_coherent.
    + unfold exec. rewrite step_passes by done. solve_coherent.
  - destruct (awaiting w) as [| c rest] eqn:Ha.
    + unfold exec. rewrite step_run. unfold exec.
      rewrite task_settled_idle by done. project.
      rewrite Ha. solve_coherent.
    + assert (rest = []) as -> by (destruct rest; cbn in Hlen; [done | lia]).
      unfold exec.
      destruct r as [data | err];
        [ rewrite (step_settled_fulfilled c []) by done
        | rewrite (step_settled_rejected c []) by done ];
        solve_coherent.
  - unfold exec. rewrite step_run. cbn [task].
    destruct (login_frame responseData w) as (Hr & Hq & Ha & Hj).
    cbn zeta in *. project. rewrite Hr, Hq, Ha. solve_coherent.
  - unfold exec. rewrite step_run. unfold exec, task, logoutWithCleanup.
    run_js. solve_coherent.
Qed.

Lemma coherent_run (evs : list Event) (w : World) :
  coherent w -> coherent (exec (run evs) w).
Proof.
  revert w. induction evs as [| ev evs IH]; intros w Hw; [done |].
  rewrite exec_run_cons. by apply IH, coherent_step.
Qed.

Lemma reachable_coherent (w : World) : reachable w -> coherent w.
Proof.
  intros (storage & href & history & ->).
  apply coherent_run, coherent_init.
Qed.

Lemma idle_nothing_parked (w : World) :
  coherent w -> isRefreshing w = false ->
  awaiting w = [] /\ failedQueue w = [] /\ microtasks w = [].
Proof.
  intros (_ & Hpark & Hidle & Hm) Hr. split; [| auto].
  destruct (awaiting w) eqn:Ha; [done |].
  rewrite Hpark in Hr; done.
Qed.

(** ** Reading the log *)

Lemma refresh_calls_app (l1 l2 : list Effect) :
  refresh_calls (l1 ++ l2) = refresh_calls l1 + refresh_calls l2.
Proof. unfold refresh_calls. by rewrite List.filter_app, length_app. Qed.

Lemma filter_map_none {A : Type} (p : Effect -> bool) (f : A -> Effect)
    (l : list A) :
  (forall x, p (f x) = false) -> List.filter p (map f l) = [].
Proof.
  intros H. induction l as [| x l IH]; [done |].
  cbn [map List.filter]. by rewrite H.
Qed.

Lemma filter_map_all {A : Type} (p : Effect -> bool) (f : A -> Effect)
    (l : list A) :
  (forall x, p (f x) = true) -> List.filter p (map f l) = map f l.
Proof.
  intros H. induction l as [| x l IH]; [done |].
  cbn [map List.filter]. by rewrite H, IH.
Qed.

Lemma split_after (p : Effect -> bool) (l1 l2 before after : list Effect)
    (e : Effect) :
  Forall (fun x => p x = false) l1 -> p e = true ->
  l1 ++ l2 = before ++ e :: after ->
  exists more, before = l1 ++ more.
Proof.
  intros Hl1 He. revert before.
  induction Hl1 as [| x l1 Hx _ IH]; intros before Heq.
  - by exists before.
  - destruct before as [| y before]; cbn in Heq.
    + injection Heq as -> _. congruence.
    + injection Heq as -> Heq. destruct (IH _ Heq) as (more & ->).
      by exists more.
Qed.

(** ** The request interceptor after a refresh *)

Lemma refreshed_storage_token (data : RefreshData)
    (storage : gmap string string) :
  refreshed_storage data storage !! TOKEN_STORAGE_KEY = Some (token data).
Proof.
  unfold refreshed_storage, if_truthy.
  destruct (refreshToken data) as [r|]; [destruct (truthy_string r) |];
    rewrite ?(lookup_insert_ne _ REFRESH_TOKEN_STORAGE_KEY) by done;
    apply lookup_insert_eq.
Qed.

Lemma refreshed_storage_refreshToken (data : RefreshData)
    (storage : gmap string string) (r : string) :
  refreshToken data = Some r -> r ≠ "" ->
  refreshed_storage data storage !! REFRESH_TOKEN_STORAGE_KEY = Some r.
Proof.
  intros Hr Hne. unfold refreshed_storage.
  rewrite Hr, if_truthy_yes by done. apply lookup_insert_eq.
Qed.

Lemma set_Authorization_twice (value : string)
    (config : InternalAxiosRequestConfig) :
  set_Authorization value (set_Authorization value config) =
  set_Authorization value config.
Proof.
  unfold set_Authorization, set_headers. cbn. by rewrite insert_insert_eq.
Qed.

Lemma refresh_writes_not_release (data : RefreshData) :
  Forall (fun x => is_release x = false) (refresh_writes data).
Proof.
  unfold refresh_writes, if_truthy.
  destruct (refreshToken data) as [r|]; [destruct (truthy_string r) |];
    repeat constructor.
Qed.

(** ** The refresh succeeds *)

(** C5, as the code has it.  When the refresh call succeeds with a
    non-empty new access token, the task that resumes the parked handler
    does, in this order: writes
    the new access token to the store, writes the new refresh token when
    the answer holds a non-empty one, resolves every queued deferred in
    queue order, re-issues the original request, and re-issues every
    queued request; each re-issued request leaves with
    [Authorization: Bearer <new token>].  So every write to the store
    comes before any release. *)
Theorem refresh_success_stores_before_release
    (w : World) (c : InternalAxiosRequestConfig) (data : RefreshData) :
  reachable w -> awaiting w = [c] -> token data ≠ "" ->
  let w' := exec (step (RefreshSettled (RefreshOk data))) w in
  let bearer := set_Authorization ("Bearer " +:+ token data) in
  let writes :=
    StorageSet TOKEN_STORAGE_KEY (token data)
      :: if_truthy (refreshToken data)
           (fun r => [StorageSet REFRESH_TOKEN_STORAGE_KEY r]) [] in
  log w' =
    log w ++ writes
      ++ map (fun d => Resolved d (Some (token data))) (failedQueue w)
      ++ Sent (bearer c)
      :: map (fun d => Sent (bearer (waiting d))) (failedQueue w) /\
  localStorage w' !! TOKEN_STORAGE_KEY = Some (token data) /\
  (forall r, refreshToken data = Some r -> r ≠ "" ->
     localStorage w' !! REFRESH_TOKEN_STORAGE_KEY = Some r) /\
  (forall before e after,
     log w' = (log w ++ before) ++ e :: after -> is_release e = true ->
     Forall (fun x => x ∈ before) writes).
Proof.
  intros Hreach Ha Ht w' bearer writes.
  destruct (reachable_coherent w Hreach) as (_ & _ & _ & Hm).
  assert (Hlog : log w' =
    log w ++ writes
      ++ map (fun d => Resolved d (Some (token data))) (failedQueue w)
      ++ Sent (bearer c)
      :: map (fun d => Sent (bearer (waiting d))) (failedQueue w)).
  { subst w'. unfold exec.
    rewrite (step_settled_fulfilled c []) by done. project.
    rewrite !(intercepted_token _ (token data))
      by (done || apply refreshed_storage_token).
    rewrite set_Authorization_twice. do 3 f_equal. f_equal.
    apply map_ext. intros d.
    by rewrite (intercepted_token _ (token data))
      by (done || apply refreshed_storage_token). }
  split; [exact Hlog |].
  subst w'. unfold exec in *.
  rewrite (step_settled_fulfilled c []) in * by done. project.
  split; [apply refreshed_storage_token |].
  split; [intros r; apply refreshed_storage_refreshToken |].
  intros before e after Heq He.
  cbn [snd log] in Hlog. rewrite Hlog, <- app_assoc in Heq.
  apply app_inv_head in Heq.
  destruct (split_after is_release writes _ before after e
              (refresh_writes_not_release data) He Heq) as (more & ->).
  apply Forall_forall. intros x Hx. apply elem_of_app. by left.
Qed.

Lemma refresh_success_stores_before_release_witness :
  let data := mkRefreshData "a1" (Some "r1") in
  let w' := exec (step (RefreshSettled (RefreshOk data))) refreshing_world in
  localStorage w' !! TOKEN_STORAGE_KEY = Some "a1" /\
  log w' =
    [PostRefresh "r0";
     StorageSet TOKEN_STORAGE_KEY "a1";
     StorageSet REFRESH_TOKEN_STORAGE_KEY "r1";
     Resolved (mkDeferred (sample_request "/api/v1/products")) (Some "a1");
     Sent (mkConfig "/api/v1/customers" "get"
             {[ "Authorization" := "Bearer a1" ]} true);
     Sent (mkConfig "/api/v1/products" "get"
             {[ "Authorization" := "Bearer a1" ]} false)].
Proof.
  intros data w'.
  assert (Hreach : reachable refreshing_world).
  { eexists _, _, _. reflexivity. }
  assert (Ha : awaiting refreshing_world
               = [set_retry true (sample_request "/api/v1/customers")])
    by reflexivity.
  assert (Ht : token data ≠ "") by done.
  destruct (refresh_success_stores_before_release refreshing_world _ data
              Hreach Ha Ht) as (Hlog & Hstore & _).
  split; [exact Hstore |]. subst w'. rewrite Hlog. reflexivity.
Defined.

(** C5 as the specification words it, for every successful refresh, fails
    when the refresh answers with the empty string as its access token.
    The store then holds the empty string, which the request interceptor
    takes for no token: it attaches nothing, so the queued request is
    re-issued with the [Bearer a0] header it was queued with, not with the
    new token. *)
Lemma refresh_with_empty_token_keeps_old_bearer :
  let old := {[ "Authorization" := "Bearer a0" ]} : gmap string string in
  let data := mkRefreshData "" None in
  let w :=
    exec (run [ResponseFailed
                 (unauthorized (mkConfig "/api/v1/customers" "get" old false));
               ResponseFailed
                 (unauthorized (mkConfig "/api/v1/products" "get" old false));
               RefreshSettled (RefreshOk data)])
      (init logged_in_storage "/dashboard") in
  localStorage w !! TOKEN_STORAGE_KEY = Some "" /\
  requests_sent (log w) =
    [mkConfig "/api/v1/customers" "get" {[ "Authorization" := "Bearer " ]} true;
     mkConfig "/api/v1/products" "get" {[ "Authorization" := "Bearer a0" ]}
       false] /\
  ~ Forall (fun c => headers c !! "Authorization"
                     = Some ("Bearer " +:+ token data))
      (requests_sent (log w)).
Proof.
  cbv zeta.
  assert (Hsent :
    requests_sent
      (log (exec (run [ResponseFailed
                         (unauthorized
                            (mkConfig "/api/v1/customers" "get"
                               {[ "Authorization" := "Bearer a0" ]} false));
                       ResponseFailed
                         (unauthorized
                            (mkConfig "/api/v1/products" "get"
                               {[ "Authorization" := "Bearer a0" ]} false));
                       RefreshSettled (RefreshOk (mkRefreshData "" None))])
              (init logged_in_storage "/dashboard")))
    = [mkConfig "/api/v1/customers" "get" {[ "Authorization" := "Bearer " ]}
         true;
       mkConfig "/api/v1/products" "get" {[ "Authorization" := "Bearer a0" ]}
         false])
    by (vm_compute; exact eq_refl).
  split; [vm_compute; exact eq_refl |]. split; [exact Hsent |].
  rewrite Hsent. intros Hall.
  apply Forall_cons in Hall as [_ Hall].
  apply Forall_cons in Hall as [Hqueued _].
  vm_compute in Hqueued. discriminate Hqueued.
Qed.

(** ** A 401 without a refresh token *)

(** C6. A 401 for a request not yet retried, handled while no refresh is
    in progress and while the store holds no refresh token (none, or an
    empty one): the refresh endpoint is not called and nothing is sent;
    both tokens are removed from the store, the page is redirected to
    [/login], and the caller gets the 401 error it would have got, whose
    request now carries the retry marker. *)
Theorem no_refresh_token_gives_up (w : World) (error : AxiosError.t) :
  reachable w ->
  handles_401 error = true -> isRefreshing w = false ->
  truthy (localStorage w !! REFRESH_TOKEN_STORAGE_KEY) = false ->
  let w' := exec (step (ResponseFailed error)) w in
  let originalRequest := set_retry true (AxiosError.config error) in
  log w' =
    log w ++ [StorageRemove TOKEN_STORAGE_KEY;
              StorageRemove REFRESH_TOKEN_STORAGE_KEY;
              Redirect "/login";
              Failed originalRequest
                (ThrownAxios (AxiosError.set_config originalRequest error))] /\
  refresh_calls (log w') = refresh_calls (log w) /\
  requests_sent (log w') = requests_sent (log w) /\
  awaiting w' = awaiting w /\
  localStorage w' !! TOKEN_STORAGE_KEY = None /\
  localStorage w' !! REFRESH_TOKEN_STORAGE_KEY = None /\
  location_href w' = "/login".
Proof.
  intros Hreach H401 Hr Hrt w' originalRequest.
  destruct (reachable_coherent w Hreach) as (_ & _ & _ & Hm).
  subst w'. unfold exec.
  rewrite step_gives_up by done. project.
  split; [done |]. split; [| split; [| split; [done |]]].
  - rewrite refresh_calls_app. cbn. lia.
  - unfold requests_sent. rewrite List.flat_map_app. cbn.
    by rewrite app_nil_r.
  - split; [| split; [| done]].
    + rewrite lookup_delete_ne by done. apply lookup_delete_eq.
    + apply lookup_delete_eq.
Qed.

Lemma no_refresh_token_gives_up_witness :
  let error := unauthorized (sample_request "/api/v1/customers") in
  let w' := exec (step (ResponseFailed error))
              (init {[ TOKEN_STORAGE_KEY := "a0" ]} "/dashboard") in
  log w' =
    [StorageRemove TOKEN_STORAGE_KEY;
     StorageRemove REFRESH_TOKEN_STORAGE_KEY;
     Redirect "/login";
     Failed (mkConfig "/api/v1/customers" "get" ∅ true)
       (ThrownAxios (unauthorized (mkConfig "/api/v1/customers" "get" ∅ true)))]
  /\ localStorage w' !! TOKEN_STORAGE_KEY = None
  /\ location_href w' = "/login".
Proof.
  intros error w'.
  destruct (no_refresh_token_gives_up
              (init {[ TOKEN_STORAGE_KEY := "a0" ]} "/dashboard") error)
    as (Hlog & _ & _ & _ & Htok & _ & Hhref);
    [by eexists _, _, [] | reflexivity | reflexivity | reflexivity |].
  split; [exact Hlog | split; [exact Htok | exact Hhref]].
Defined.

(** ** The flag after the handler *)

(** C2, evaluated on the code.  When the awaited refresh call settles, on
    success and on failure alike, the handler leaves [isRefreshing] false.
    On the path without a refresh token the handler returns before the
    [try ... finally]: it leaves [isRefreshing] true although no refresh
    call is in flight, and every later 401 is queued behind a refresh
    that will never settle. *)
Theorem flag_stays_set_without_refresh_token
    (w : World) (error : AxiosError.t) :
  reachable w ->
  handles_401 error = true -> isRefreshing w = false ->
  truthy (localStorage w !! REFRESH_TOKEN_STORAGE_KEY) = false ->
  let w' := exec (step (ResponseFailed error)) w in
  isRefreshing w' = true /\
  awaiting w' = awaiting w /\
  (forall later : AxiosError.t, handles_401 later = true ->
     exec (step (ResponseFailed later)) w' =
     with_failedQueue w'
       (failedQueue w' ++ [mkDeferred (AxiosError.config later)])) /\
  (forall (c : InternalAxiosRequestConfig) (r : RefreshResult) (v : World),
     reachable v -> awaiting v = [c] ->
     isRefreshing (exec (step (RefreshSettled r)) v) = false).
Proof.
  intros Hreach H401 Hr Hrt w'.
  destruct (reachable_coherent w Hreach) as (_ & _ & _ & Hm).
  subst w'. unfold exec.
  rewrite step_gives_up by done. project.
  split; [done |]. split; [done |]. split.
  - intros later Hlater. by rewrite step_queues.
  - intros c r v Hv Ha.
    destruct (reachable_coherent v Hv) as (_ & _ & _ & Hjobs).
    destruct r as [data | err];
      [ rewrite (step_settled_fulfilled c []) by done
      | rewrite (step_settled_rejected c []) by done ]; done.
Qed.

Lemma flag_stays_set_without_refresh_token_witness :
  let error := unauthorized (sample_request "/api/v1/customers") in
  let later := unauthorized (sample_request "/api/v1/products") in
  let w' := exec (run [ResponseFailed error; ResponseFailed later])
              (init ∅ "/dashboard") in
  isRefreshing w' = true /\ awaiting w' = [] /\
  failedQueue w' = [mkDeferred (sample_request "/api/v1/products")].
Proof.
  intros error later w'.
  destruct (flag_stays_set_without_refresh_token (init ∅ "/dashboard") error)
    as (Hflag & Hpark & Hqueue & _);
    [by eexists _, _, [] | reflexivity | reflexivity | reflexivity |].
  subst w'. rewrite !exec_run_cons, exec_run_nil.
  rewrite (Hqueue later) by reflexivity. project.
  split; [exact Hflag | split; [exact Hpark | reflexivity]].
Defined.

(** ** The queue of failed requests *)

Lemma settlements_app (l1 l2 : list Effect) :
  settlements (l1 ++ l2) = settlements l1 ++ settlements l2.
Proof. apply List.filter_app. Qed.

Lemma settlements_refresh_writes (data : RefreshData) :
  settlements (refresh_writes data) = [].
Proof.
  unfold refresh_writes, if_truthy.
  destruct (refreshToken data) as [r|]; [destruct (truthy_string r) |]; done.
Qed.

Lemma settlements_jobs (storage : gmap string string) (jobs : list Job) :
  settlements (map (job_effect storage) jobs) = [].
Proof. apply filter_map_none. by intros [d | d err]. Qed.

Lemma task_queue_change (ev : Event) (w : World) :
  let w' := exec (task ev) w in
  failedQueue w' = failedQueue w \/
  (isRefreshing w = true /\
   exists error, ev = ResponseFailed error /\
     failedQueue w' = failedQueue w ++ [mkDeferred (AxiosError.config error)]) \/
  (exists r, ev = RefreshSettled r /\ awaiting w ≠ [] /\ failedQueue w' = []).
Proof.
  cbn zeta. destruct ev as [error | r | responseData |]; unfold exec.
  - cbn [task]. destruct (handles_401 error) eqn:H401.
    + destruct (isRefreshing w) eqn:Hr.
      * rewrite response_interceptor_queues by done. right. left. eauto.
      * destruct (truthy (localStorage w !! REFRESH_TOKEN_STORAGE_KEY))
          eqn:Hrt.
        -- apply truthy_true in Hrt as (rt & Hrt & Hne).
           rewrite (response_interceptor_starts error w rt) by done.
           by left.
        -- rewrite response_interceptor_gives_up by done. by left.
    + rewrite response_interceptor_passes by done. by left.
  - destruct (awaiting w) as [| c rest] eqn:Ha.
    + rewrite task_settled_idle by done. by left.
    + rewrite (task_settled c rest) by done. right. right.
      exists r. split; [done |]. split; [done |].
      destruct r; [rewrite resume_fulfilled | rewrite resume_rejected]; done.
  - left. by destruct (login_frame responseData w) as (_ & Hq & _).
  - left. cbn [task]. unfold logoutWithCleanup. by run_js.
Qed.

(** C3. The queue is empty when the page loads.  A turn of the event loop
    leaves it as it was, or appends one deferred at its end, which only a
    401 handled while [isRefreshing] is true does, or empties it, which
    only the settling of a pending refresh does.  When the refresh
    settles, every queued deferred is settled once, in queue order and
    all the same way: resolved with the new token when the refresh
    succeeded, rejected with the refresh error when it failed; the queue
    is empty afterwards. *)
Theorem failedQueue_lifecycle :
  (forall storage href, failedQueue (init storage href) = []) /\
  (forall (w : World) (ev : Event),
     let w' := exec (step ev) w in
     failedQueue w' = failedQueue w \/
     (isRefreshing w = true /\
      exists error, ev = ResponseFailed error /\
        failedQueue w' =
          failedQueue w ++ [mkDeferred (AxiosError.config error)]) \/
     (exists r, ev = RefreshSettled r /\ awaiting w ≠ [] /\
        failedQueue w' = [])) /\
  (forall (w : World) (c : InternalAxiosRequestConfig)
          (rest : list InternalAxiosRequestConfig) (r : RefreshResult),
     awaiting w = c :: rest ->
     let w' := exec (step (RefreshSettled r)) w in
     failedQueue w' = [] /\
     exists happened,
       log w' = log w ++ happened /\
       settlements happened = map (settled_by r) (failedQueue w)).
Proof.
  split; [done |]. split.
  - intros w ev. cbn zeta.
    replace (failedQueue (exec (step ev) w))
      with (failedQueue (exec (task ev) w))
      by (unfold exec at 2; by rewrite step_run).
    apply task_queue_change.
  - intros w c rest r Ha. cbn zeta. unfold exec. rewrite step_run.
    unfold exec. rewrite (task_settled c rest) by done.
    destruct r as [data | err];
      [rewrite resume_fulfilled | rewrite resume_rejected]; project;
      (split; [done |]); rewrite <- app_assoc; eexists; (split; [done |]).
    + rewrite !settlements_app, settlements_refresh_writes, settlements_jobs.
      cbn [app settled_by].
      change (settlements [Sent ?x]) with (@nil Effect).
      rewrite !app_nil_r. by apply filter_map_all.
    + rewrite !settlements_app, settlements_jobs, !app_nil_r.
      cbn [settled_by]. by apply filter_map_all.
Qed.

Lemma failedQueue_lifecycle_witness :
  failedQueue refreshing_world
    = [mkDeferred (sample_request "/api/v1/products")] /\
  failedQueue
    (exec (step (RefreshSettled (RefreshErr (ThrownError "Network Error"))))
       refreshing_world) = [] /\
  settlements
    (log (exec (step (RefreshSettled (RefreshErr (ThrownError "Network Error"))))
            refreshing_world))
    = [RejectedDeferred (mkDeferred (sample_request "/api/v1/products"))
         (ThrownError "Network Error")].
Proof.
  destruct failedQueue_lifecycle as (_ & _ & Hsettle).
  destruct (Hsettle refreshing_world
              (set_retry true (sample_request "/api/v1/customers")) []
              (RefreshErr (ThrownError "Network Error")))
    as (Hempty & happened & Hlog & Hhappened); [reflexivity |].
  split; [reflexivity |]. split; [exact Hempty |].
  rewrite Hlog, settlements_app, Hhappened. reflexivity.
Defined.

(** ** Concurrent 401s *)

Lemma flat_map_map_none {A B : Type} (g : Effect -> list B) (f : A -> Effect)
    (l : list A) :
  (forall x, g (f x) = []) -> List.flat_map g (map f l) = [].
Proof.
  intros H. induction l as [| x l IH]; [done |].
  cbn [map List.flat_map]. by rewrite H, IH.
Qed.

Lemma flat_map_map_one {A B : Type} (g : Effect -> list B) (f : A -> Effect)
    (h : A -> B) (l : list A) :
  (forall x, g (f x) = [h x]) -> List.flat_map g (map f l) = map h l.
Proof.
  intros H. induction l as [| x l IH]; [done |].
  cbn [map List.flat_map]. by rewrite H, IH.
Qed.

Lemma refresh_calls_writes (data : RefreshData) :
  refresh_calls (refresh_writes data) = 0.
Proof.
  unfold refresh_writes, if_truthy.
  destruct (refreshToken data) as [r|]; [destruct (truthy_string r) |]; done.
Qed.

Lemma requests_sent_writes (data : RefreshData) :
  requests_sent (refresh_writes data) = [].
Proof.
  unfold refresh_writes, if_truthy.
  destruct (refreshToken data) as [r|]; [destruct (truthy_string r) |]; done.
Qed.

Lemma refresh_calls_map_none {A : Type} (f : A -> Effect) (l : list A) :
  (forall x, is_refresh_call (f x) = false) -> refresh_calls (map f l) = 0.
Proof. intros H. unfold refresh_calls. by rewrite filter_map_none. Qed.

(** 401s handled while the flag is set are queued in arrival order. *)
Lemma run_queues (es : list AxiosError.t) (w : World) :
  isRefreshing w = true -> microtasks w = [] ->
  Forall (fun x => handles_401 x = true) es ->
  exec (run (map ResponseFailed es)) w =
  with_failedQueue w
    (failedQueue w ++ map (fun x => mkDeferred (AxiosError.config x)) es).
Proof.
  intros Hr Hm Hes. revert w Hr Hm.
  induction Hes as [| e es He _ IH]; intros w Hr Hm.
  - cbn [map]. rewrite exec_run_nil, app_nil_r. by destruct w.
  - cbn [map]. rewrite exec_run_cons. unfold exec at 2.
    rewrite step_queues by done. cbn [snd].
    rewrite IH by done. unfold with_failedQueue. project.
    by rewrite <- app_assoc.
Qed.

(** C1, as the code has it.  Take a page between two tasks with no
    refresh in progress and a non-empty refresh token in the store, and
    N >= 1 requests, none marked as retried, whose 401s are handled one
    after the other before the refresh settles.  The first handler calls
    the refresh endpoint, once, and parks; the other N-1 handlers each
    append a deferred to the queue, in arrival order, and call nothing.
    When that refresh settles, one task settles all queued deferreds the
    same way and releases all N requests: re-issued on success, failed
    with the refresh error on failure; it calls the refresh endpoint no
    more.  The queue is then empty, nothing is parked and the flag is
    clear.  At no later time is more than one handler parked at a
    refresh call. *)
Theorem one_refresh_for_concurrent_401s
    (w : World) (e : AxiosError.t) (es : list AxiosError.t) (rt : string)
    (r : RefreshResult) :
  reachable w -> isRefreshing w = false ->
  Forall (fun x => handles_401 x = true) (e :: es) ->
  localStorage w !! REFRESH_TOKEN_STORAGE_KEY = Some rt -> rt ≠ "" ->
  let w1 := exec (run (map ResponseFailed (e :: es))) w in
  let w2 := exec (step (RefreshSettled r)) w1 in
  let first := set_retry true (AxiosError.config e) in
  (log w1 = log w ++ [PostRefresh rt] /\
   awaiting w1 = [first] /\
   failedQueue w1 = map (fun x => mkDeferred (AxiosError.config x)) es) /\
  (exists released,
     log w2 = log w1 ++ released /\
     refresh_calls released = 0 /\
     settlements released =
       map (fun x => settled_by r (mkDeferred (AxiosError.config x))) es /\
     match r with
     | RefreshOk data =>
         requests_sent released =
           map (intercepted (localStorage w2))
             (set_Authorization ("Bearer " +:+ token data) first
                :: map AxiosError.config es)
     | RefreshErr err =>
         failures released =
           (first, err) :: map (fun x => (AxiosError.config x, err)) es
     end) /\
  refresh_calls (log w2) = refresh_calls (log w) + 1 /\
  failedQueue w2 = [] /\ awaiting w2 = [] /\ isRefreshing w2 = false /\
  (forall future, length (awaiting (exec (run future) w2)) <= 1).
Proof.
  intros Hreach Hr Hall Hrt Hne w1 w2 first.
  pose proof (reachable_coherent w Hreach) as Hco.
  destruct (idle_nothing_parked w Hco Hr) as (Ha & Hq & Hm).
  apply Forall_cons in Hall as [He Hes].
  assert (Hw2co : coherent w2).
  { subst w2 w1. by apply coherent_step, coherent_run. }
  assert (Hw1 : w1 =
    mkWorld (localStorage w) true
      (map (fun x => mkDeferred (AxiosError.config x)) es)
      (location_href w) [first] [] (log w ++ [PostRefresh rt])).
  { subst w1. cbn [map]. rewrite exec_run_cons. unfold exec at 2.
    rewrite (step_starts e w rt) by done. cbn [snd].
    rewrite run_queues by done. unfold with_failedQueue. project.
    by rewrite Ha, Hq. }
  split; [by rewrite Hw1 |].
  assert (Hpark : awaiting w1 = [first]) by (by rewrite Hw1).
  assert (Hjobs : microtasks w1 = []) by (by rewrite Hw1).
  assert (Hqueue : failedQueue w1 =
            map (fun x => mkDeferred (AxiosError.config x)) es)
    by (by rewrite Hw1).
  assert (Hlog1 : refresh_calls (log w1) = refresh_calls (log w) + 1).
  { rewrite Hw1. project. by rewrite refresh_calls_app. }
  assert (Hrel : exists released,
     log w2 = log w1 ++ released /\
     refresh_calls released = 0 /\
     settlements released =
       map (fun x => settled_by r (mkDeferred (AxiosError.config x))) es /\
     match r with
     | RefreshOk data =>
         requests_sent released =
           map (intercepted (localStorage w2))
             (set_Authorization ("Bearer " +:+ token data) first
                :: map AxiosError.config es)
     | RefreshErr err =>
         failures released =
           (first, err) :: map (fun x => (AxiosError.config x, err)) es
     end).
  { subst w2. unfold exec. destruct r as [data | err].
    - rewrite (step_settled_fulfilled first []) by done. project.
      rewrite Hqueue, !map_map. cbn [waiting].
      eexists. split; [done |]. split; [| split].
      + rewrite !refresh_calls_app, refresh_calls_writes.
        rewrite refresh_calls_map_none by done.
        change (?x :: map ?f ?l) with ([x] ++ map f l).
        rewrite refresh_calls_app, refresh_calls_map_none by done.
        reflexivity.
      + rewrite !settlements_app, settlements_refresh_writes.
        change (?x :: map ?f ?l) with ([x] ++ map f l).
        rewrite settlements_app.
        rewrite (filter_map_none is_settlement
                   (fun x => Sent (intercepted _ (AxiosError.config x))))
          by done.
        change (settlements [Sent ?x]) with (@nil Effect).
        rewrite !app_nil_r. cbn [app settled_by].
        by apply filter_map_all.
      + unfold requests_sent.
        rewrite !List.flat_map_app. fold (requests_sent (refresh_writes data)).
        rewrite requests_sent_writes.
        rewrite flat_map_map_none by done. cbn [app List.flat_map map].
        rewrite (flat_map_map_one _ _
                   (fun x => intercepted
                      (refreshed_storage data (localStorage w1))
                      (AxiosError.config x))) by done.
        by rewrite map_map.
    - rewrite (step_settled_rejected first []) by done. project.
      rewrite Hqueue, !map_map. cbn [waiting].
      eexists. split; [done |]. split; [| split].
      + rewrite !refresh_calls_app.
        rewrite !refresh_calls_map_none by done. reflexivity.
      + rewrite !settlements_app.
        rewrite (filter_map_none is_settlement
                   (fun x => Failed (AxiosError.config x) err)) by done.
        change (settlements [_; _; _; _]) with (@nil Effect).
        rewrite !app_nil_r. cbn [settled_by]. by apply filter_map_all.
      + unfold failures. rewrite !List.flat_map_app.
        rewrite flat_map_map_none by done. cbn [app List.flat_map].
        by rewrite (flat_map_map_one _ _
                      (fun x => (AxiosError.config x, err))). }
  split; [exact Hrel |].
  destruct Hrel as (released & Hlog2 & Hcalls & _).
  split; [rewrite Hlog2, refresh_calls_app; lia |].
  assert (Hshape : failedQueue w2 = [] /\ awaiting w2 = []
                   /\ isRefreshing w2 = false).
  { subst w2. unfold exec.
    destruct r as [data | err];
      [ rewrite (step_settled_fulfilled first []) by done
      | rewrite (step_settled_rejected first []) by done ]; done. }
  destruct Hshape as (? & ? & ?). repeat (split; [done |]).
  intros future.
  by destruct (coherent_run future w2 Hw2co) as (Hlen & _).
Qed.

Lemma one_refresh_for_concurrent_401s_witness :
  let w := init logged_in_storage "/dashboard" in
  let e := unauthorized (sample_request "/api/v1/customers") in
  let es := [unauthorized (sample_request "/api/v1/products");
             unauthorized (sample_request "/api/v1/warehouses")] in
  let r := RefreshOk (mkRefreshData "a1" None) in
  let w1 := exec (run (map ResponseFailed (e :: es))) w in
  let w2 := exec (step (RefreshSettled r)) w1 in
  log w1 = [PostRefresh "r0"] /\
  failedQueue w1 = [mkDeferred (sample_request "/api/v1/products");
                    mkDeferred (sample_request "/api/v1/warehouses")] /\
  refresh_calls (log w2) = 1 /\
  failedQueue w2 = [].
Proof.
  intros w e es r w1 w2.
  assert (Hreach : reachable w).
  { exists logged_in_storage, "/dashboard", []. reflexivity. }
  assert (Hall : Forall (fun x => handles_401 x = true) (e :: es)).
  { repeat constructor. }
  destruct (one_refresh_for_concurrent_401s w e es "r0" r Hreach)
    as ((Hlog & _ & Hqueue) & _ & Hcalls & Hempty & _);
    [reflexivity | exact Hall | reflexivity | done |].
  split; [exact Hlog |]. split; [exact Hqueue |].
  split; [exact Hcalls | exact Hempty].
Defined.

(** C1 as the specification words it, for every N requests answered 401
    while no refresh is in progress, fails on a page whose store holds no
    refresh token: of two such requests the first clears the store and
    redirects, the second is queued, and the refresh endpoint is never
    called. *)
Lemma concurrent_401s_without_refresh_token :
  let w := init (<[TOKEN_STORAGE_KEY := "a0"]> ∅) "/dashboard" in
  let errors := [unauthorized (sample_request "/api/v1/customers");
                 unauthorized (sample_request "/api/v1/products")] in
  let w1 := exec (run (map ResponseFailed errors)) w in
  isRefreshing w = false /\
  forallb handles_401 errors = true /\
  refresh_calls (log w1) = 0 /\
  refresh_calls (log w1) ≠ 1 /\
  failedQueue w1 = [mkDeferred (sample_request "/api/v1/products")] /\
  awaiting w1 = [].
Proof. cbv zeta. repeat split; try reflexivity. by vm_compute. Qed.

(** ** A second 401 *)

Lemma step_propagates (error : AxiosError.t) (w : World) :
  _retry (AxiosError.config error) = true -> microtasks w = [] ->
  exec (step (ResponseFailed error)) w =
  with_log w (log w ++ [Failed (AxiosError.config error) (ThrownAxios error)]).
Proof.
  intros Hretry Hm. unfold exec. rewrite step_passes; [done | | done].
  unfold handles_401. rewrite Hretry. apply andb_false_r.
Qed.

(** C4, evaluated on the code.  After a successful refresh the request
    that started it is re-issued with the retry marker and the request
    released from the queue is re-issued without it.  A second 401 for the
    first fails with that error and nothing else happens (see
    [step_propagates] for every marked request).  A second 401 for the
    released one makes the handler call the refresh endpoint a second
    time, or queue the request again when a refresh is in progress. *)
Theorem queued_request_is_reissued_unmarked :
  let data := mkRefreshData "a1" (Some "r1") in
  let w := exec (step (RefreshSettled (RefreshOk data))) refreshing_world in
  let first := mkConfig "/api/v1/customers" "get"
                 {[ "Authorization" := "Bearer a1" ]} true in
  let queued := mkConfig "/api/v1/products" "get"
                  {[ "Authorization" := "Bearer a1" ]} false in
  requests_sent (log w) = [first; queued] /\
  (let w' := exec (step (ResponseFailed (unauthorized first))) w in
   log w' = log w ++ [Failed first (ThrownAxios (unauthorized first))] /\
   isRefreshing w' = false /\ localStorage w' = localStorage w) /\
  (let w' := exec (step (ResponseFailed (unauthorized queued))) w in
   log w' = log w ++ [PostRefresh "r1"] /\
   isRefreshing w' = true /\
   awaiting w' = [set_retry true queued] /\
   refresh_calls (log w') = 2) /\
  (let w' := exec (run [ResponseFailed (unauthorized (sample_request "/x"));
                        ResponseFailed (unauthorized queued)]) w in
   failedQueue w' = [mkDeferred queued]).
Proof.
  cbv zeta. repeat apply conj; vm_compute; exact eq_refl.
Qed.

(** * Further properties of the code *)

(** ** The token store *)

Lemma clearTokens_run (w : World) :
  tokenManager.clearTokens w =
  (tt, mkWorld
         (delete REFRESH_TOKEN_STORAGE_KEY
            (delete TOKEN_STORAGE_KEY (localStorage w)))
         (isRefreshing w) (failedQueue w) (location_href w) (awaiting w)
         (microtasks w)
         (log w ++ [StorageRemove TOKEN_STORAGE_KEY;
                    StorageRemove REFRESH_TOKEN_STORAGE_KEY])).
Proof. run_js. by rewrite <- app_assoc. Qed.

Lemma setRefreshToken_run (t : string) (w : World) :
  tokenManager.setRefreshToken t w =
  (tt, with_log
         (with_localStorage w
            (<[REFRESH_TOKEN_STORAGE_KEY := t]> (localStorage w)))
         (log w ++ [StorageSet REFRESH_TOKEN_STORAGE_KEY t])).
Proof. by run_js. Qed.

(** X1. The two tokens are stored independently: a token written is the
    token read back, the later of two writes wins, writing one token
    leaves the other as it was, and [clearTokens] removes both, after
    which [hasToken] is false and a second [clearTokens] changes nothing
    in the store. *)
Theorem token_store_round_trip (w : World) (t t' : string) :
  eval tokenManager.getToken (exec (tokenManager.setToken t) w) = Some t /\
  eval tokenManager.getRefreshToken (exec (tokenManager.setRefreshToken t) w)
    = Some t /\
  eval tokenManager.getToken
    (exec (tokenManager.setToken t') (exec (tokenManager.setToken t) w))
    = Some t' /\
  eval tokenManager.getRefreshToken (exec (tokenManager.setToken t) w)
    = eval tokenManager.getRefreshToken w /\
  eval tokenManager.getToken (exec (tokenManager.setRefreshToken t) w)
    = eval tokenManager.getToken w /\
  (let cleared := exec tokenManager.clearTokens w in
   eval tokenManager.getToken cleared = None /\
   eval tokenManager.getRefreshToken cleared = None /\
   eval tokenManager.hasToken cleared = false /\
   localStorage (exec tokenManager.clearTokens cleared)
     = localStorage cleared).
Proof.
  unfold eval, exec.
  rewrite !setToken_run, !setRefreshToken_run, !clearTokens_run,
    !hasToken_run.
  unfold tokenManager.getToken, tokenManager.getRefreshToken, getItem.
  project.
  repeat split.
  - apply lookup_insert_eq.
  - apply lookup_insert_eq.
  - apply lookup_insert_eq.
  - by rewrite lookup_insert_ne.
  - by rewrite lookup_insert_ne.
  - rewrite lookup_delete_ne by done. apply lookup_delete_eq.
  - apply lookup_delete_eq.
  - rewrite lookup_delete_ne by done. by rewrite lookup_delete_eq.
  - apply map_eq. intros k. rewrite !lookup_delete.
    repeat case_decide. all: done.
Qed.

(** ** Login and logout *)

Lemma loginWithToken_storage (responseData : AuthTokenResponse) (w : World)
    (k : string) :
  localStorage (exec (loginWithToken responseData) w) !! k =
  if decide (k = REFRESH_TOKEN_STORAGE_KEY)
  then or_else (auth_refreshToken responseData) (localStorage w !! k)
  else if decide (k = TOKEN_STORAGE_KEY)
       then or_else (auth_token responseData) (localStorage w !! k)
       else localStorage w !! k.
Proof.
  unfold loginWithToken, exec, or_else, truthy, if_truthy, truthy_string,
    truthy.
  destruct (auth_token responseData) as [t|];
    destruct (auth_refreshToken responseData) as [r|];
    try destruct (negb (String.eqb t "")); try destruct (negb (String.eqb r ""));
    run_js; rewrite ?lookup_insert;
    repeat case_decide; subst; try congruence; done.
Qed.

(** X2. [loginWithToken] writes what the response holds and keeps what it
    lacks: after it the access token is the response's token when that is
    a non-empty string and the token stored before otherwise, and the same
    for the refresh token; no other entry of the store changes.  So a
    login answered without a token never logs a user out, and
    [isAuthenticated] is true afterwards exactly when the response held a
    token or the user was authenticated before. *)
Theorem loginWithToken_keeps_what_the_response_lacks
    (w : World) (responseData : AuthTokenResponse) :
  let w' := exec (loginWithToken responseData) w in
  localStorage w' !! TOKEN_STORAGE_KEY
    = or_else (auth_token responseData) (localStorage w !! TOKEN_STORAGE_KEY) /\
  localStorage w' !! REFRESH_TOKEN_STORAGE_KEY
    = or_else (auth_refreshToken responseData)
        (localStorage w !! REFRESH_TOKEN_STORAGE_KEY) /\
  (forall k, k ≠ TOKEN_STORAGE_KEY -> k ≠ REFRESH_TOKEN_STORAGE_KEY ->
     localStorage w' !! k = localStorage w !! k) /\
  eval isAuthenticated w'
    = truthy (auth_token responseData) || eval isAuthenticated w.
Proof.
  intros w'. subst w'.
  assert (Htok : localStorage (exec (loginWithToken responseData) w)
                   !! TOKEN_STORAGE_KEY
                 = or_else (auth_token responseData)
                     (localStorage w !! TOKEN_STORAGE_KEY)).
  { rewrite loginWithToken_storage. repeat case_decide. all: done. }
  split; [exact Htok |]. split; [| split].
  - rewrite loginWithToken_storage. case_decide. all: done.
  - intros k Hk Hr. rewrite loginWithToken_storage. repeat case_decide. all: done.
  - unfold eval, isAuthenticated. rewrite !hasToken_run. cbn [fst].
    rewrite Htok. unfold or_else.
    destruct (truthy (auth_token responseData)) eqn:E; [by rewrite E | done].
Qed.

(** X3. [logoutWithCleanup] ends with no token in the store whatever was
    there, also right after a login: [isAuthenticated] is false, the
    configuration's [accessToken] is the empty string, and a request
    passes the interceptor unchanged.  Nothing but the two token entries
    is removed. *)
Theorem logout_removes_both_tokens
    (w : World) (responseData : AuthTokenResponse)
    (config : InternalAxiosRequestConfig) :
  let w' := exec logoutWithCleanup (exec (loginWithToken responseData) w) in
  localStorage w' !! TOKEN_STORAGE_KEY = None /\
  localStorage w' !! REFRESH_TOKEN_STORAGE_KEY = None /\
  (forall k, k ≠ TOKEN_STORAGE_KEY -> k ≠ REFRESH_TOKEN_STORAGE_KEY ->
     localStorage w' !! k = localStorage w !! k) /\
  eval isAuthenticated w' = false /\
  eval accessToken w' = "" /\
  eval (request_interceptor config) w' = config.
Proof.
  intros w'.
  assert (Htok : localStorage w' !! TOKEN_STORAGE_KEY = None).
  { subst w'. unfold logoutWithCleanup, exec at 1. rewrite clearTokens_run.
    project. rewrite lookup_delete_ne by done. apply lookup_delete_eq. }
  split; [exact Htok |]. split; [| split; [| split; [| split]]].
  - subst w'. unfold logoutWithCleanup, exec at 1. rewrite clearTokens_run.
    project. apply lookup_delete_eq.
  - intros k Hk Hr. subst w'. unfold logoutWithCleanup, exec at 1.
    rewrite clearTokens_run. project.
    rewrite !(lookup_delete_ne _ _ k) by done.
    rewrite loginWithToken_storage. repeat case_decide. all: done.
  - unfold eval, isAuthenticated. rewrite hasToken_run. cbn [fst].
    by rewrite Htok.
  - unfold eval, accessToken, bind. rewrite getToken_run. by rewrite Htok.
  - unfold eval. rewrite request_interceptor_run. cbn [fst].
    unfold intercepted. by rewrite Htok.
Qed.

(** ** The request interceptor and the configuration's access token *)

Lemma accessToken_run (w : World) :
  accessToken w = (or_literal (localStorage w !! TOKEN_STORAGE_KEY) "", w).
Proof. unfold accessToken, bind. by rewrite getToken_run. Qed.

(** X4. The [accessToken] callback of the OpenAPI configuration reads the
    store each time it is called and never fails: it answers the stored
    access token, and the empty string when none or an empty one is
    stored.  It is non-empty exactly when [hasToken] is true, and then the
    request interceptor sets the header to [Bearer] followed by it. *)
Theorem accessToken_agrees_with_interceptor
    (w : World) (config : InternalAxiosRequestConfig) :
  exec accessToken w = w /\
  eval accessToken w = default "" (localStorage w !! TOKEN_STORAGE_KEY) /\
  (eval accessToken w ≠ "" <-> eval tokenManager.hasToken w = true) /\
  headers (eval (request_interceptor config) w) !! "Authorization" =
    (if eval tokenManager.hasToken w
     then Some ("Bearer " +:+ eval accessToken w)
     else headers config !! "Authorization").
Proof.
  unfold exec, eval.
  rewrite accessToken_run, hasToken_run, request_interceptor_run. cbn [fst snd].
  unfold intercepted, or_literal, or_else, if_truthy, truthy_string, truthy.
  destruct (localStorage w !! TOKEN_STORAGE_KEY) as [t|]; cbn.
  - destruct (String.eqb_spec t "") as [-> | Hne]; cbn.
    + repeat split; try done.
    + repeat split; try done. apply lookup_insert_eq.
  - repeat split; done.
Qed.



(** ** Errors the refresh logic leaves alone *)

(** X6. An error that is not a first 401 passes through the response
    interceptor untouched: when the request got no response at all (a
    network failure or a timeout), when the response has another status,
    or when the request already carries the retry marker, the caller gets
    that very error and nothing else happens: no write to the store, no
    redirect, no refresh call, nothing queued and the flag as it was. *)
Theorem other_errors_pass_through (w : World) (error : AxiosError.t) :
  reachable w ->
  (AxiosError.response error = None \/
   (exists r, AxiosError.response error = Some r /\
              AxiosResponse.status r ≠ 401%Z) \/
   _retry (AxiosError.config error) = true) ->
  exec (step (ResponseFailed error)) w =
  with_log w
    (log w ++ [Failed (AxiosError.config error) (ThrownAxios error)]).
Proof.
  intros Hreach Hcase.
  destruct (reachable_coherent w Hreach) as (_ & _ & _ & Hm).
  unfold exec. rewrite step_passes; [done | | done].
  unfold handles_401, status_is.
  destruct Hcase as [-> | [(r & -> & Hr) | ->]].
  - done.
  - apply Z.eqb_neq in Hr. by rewrite Hr.
  - apply andb_false_r.
Qed.

Lemma other_errors_pass_through_witness :
  let timeout :=
    AxiosError.mk (sample_request "/api/v1/warehouses") None
      "timeout of 30000ms exceeded" (Some "ECONNABORTED") in
  exec (step (ResponseFailed timeout)) refreshing_world =
  with_log refreshing_world
    (log refreshing_world
       ++ [Failed (sample_request "/api/v1/warehouses") (ThrownAxios timeout)]).
Proof.
  intros timeout.
  apply (other_errors_pass_through refreshing_world timeout).
  - eexists _, _, _. reflexivity.
  - left. reflexivity.
Defined.

(** ** When the refresh endpoint is called *)

Lemma loginWithToken_calls (responseData : AuthTokenResponse) (w : World) :
  refresh_calls (log (exec (loginWithToken responseData) w))
  = refresh_calls (log w).
Proof.
  unfold loginWithToken, exec, if_truthy.
  destruct (auth_token responseData) as [t|];
    destruct (auth_refreshToken responseData) as [r|];
    try destruct (truthy_string t); try destruct (truthy_string r);
    run_js; rewrite ?refresh_calls_app; cbn; lia.
Qed.

Lemma step_settled_calls (c : InternalAxiosRequestConfig)
    (rest : list InternalAxiosRequestConfig) (r : RefreshResult) (w : World) :
  awaiting w = c :: rest -> microtasks w = [] ->
  refresh_calls (log (exec (step (RefreshSettled r)) w))
  = refresh_calls (log w).
Proof.
  intros Ha Hm. unfold exec. destruct r as [data | err].
  - rewrite (step_settled_fulfilled c rest) by done. project.
    change (?x :: map ?f ?l) with ([x] ++ map f l).
    rewrite !refresh_calls_app, refresh_calls_writes.
    rewrite !refresh_calls_map_none by done.
    change (refresh_calls [Sent ?x]) with 0. lia.
  - rewrite (step_settled_rejected c rest) by done. project.
    rewrite !refresh_calls_app.
    rewrite !refresh_calls_map_none by done.
    change (refresh_calls [_; _; _; _]) with 0. lia.
Qed.

(** X7. A turn of the event loop calls the refresh endpoint at most once,
    and it does so in exactly one situation: the event is a 401 for a
    request not yet retried, the flag is clear and the store holds a
    non-empty refresh token.  Settling a refresh, a login, a logout, and
    every other failed response call it zero times. *)
Theorem refresh_called_exactly_when (w : World) (ev : Event) :
  reachable w ->
  refresh_calls (log (exec (step ev) w)) =
  refresh_calls (log w) + (if starts_refresh w ev then 1 else 0).
Proof.
  intros Hreach.
  destruct (reachable_coherent w Hreach) as (Hlen & Hpark & Hidle & Hm).
  destruct ev as [error | r | responseData |]; cbn [starts_refresh].
  - destruct (handles_401 error) eqn:H401; cbn [andb].
    + destruct (isRefreshing w) eqn:Hr; cbn [andb negb].
      * unfold exec. rewrite step_queues by done. project. lia.
      * destruct (truthy (localStorage w !! REFRESH_TOKEN_STORAGE_KEY))
          eqn:Hrt.
        -- apply truthy_true in Hrt as (rt & Hrt & Hne).
           unfold exec. rewrite (step_starts error w rt) by done. project.
           by rewrite refresh_calls_app.
        -- unfold exec. rewrite step_gives_up by done. project.
           rewrite refresh_calls_app.
           change (refresh_calls [_; _; _; _]) with 0. lia.
    + unfold exec. rewrite step_passes by done. project.
      rewrite refresh_calls_app. change (refresh_calls [_]) with 0. lia.
  - destruct (awaiting w) as [| c rest] eqn:Ha.
    + unfold exec. rewrite step_run. unfold exec.
      rewrite task_settled_idle by done. project.
      rewrite Hm. cbn [map]. rewrite app_nil_r. lia.
    + rewrite (step_settled_calls c rest) by done. lia.
  - unfold exec at 1. rewrite step_run. cbn [task]. project.
    destruct (login_frame responseData w) as (_ & _ & _ & Hj).
    cbn zeta in Hj. rewrite Hj, Hm. cbn [map]. rewrite app_nil_r.
    rewrite loginWithToken_calls. lia.
  - unfold exec. rewrite step_run. unfold exec, task, logoutWithCleanup.
    rewrite clearTokens_run. project. rewrite Hm. cbn [map].
    rewrite app_nil_r, refresh_calls_app.
    change (refresh_calls [_; _]) with 0. lia.
Qed.

Lemma refresh_called_exactly_when_witness :
  refresh_calls
    (log (exec (step (ResponseFailed
                        (unauthorized (sample_request "/api/v1/invoices"))))
            refreshing_world))
  = refresh_calls (log refreshing_world) + 0.
Proof.
  apply (refresh_called_exactly_when refreshing_world
           (ResponseFailed (unauthorized (sample_request "/api/v1/invoices")))).
  eexists _, _, _. reflexivity.
Defined.

(** ** After a failed refresh *)

Lemma step_storage (ev : Event) (w : World) :
  localStorage (exec (step ev) w) = localStorage (exec (task ev) w).
Proof. unfold exec at 1. by rewrite step_run. Qed.

Lemma step_awaiting (ev : Event) (w : World) :
  awaiting (exec (step ev) w) = awaiting (exec (task ev) w).
Proof. unfold exec at 1. by rewrite step_run. Qed.

(** Nothing is parked and no refresh token is stored. *)
Lemma logged_out_stays (ev : Event) (w : World) :
  coherent w -> awaiting w = [] ->
  truthy (localStorage w !! REFRESH_TOKEN_STORAGE_KEY) = false ->
  is_login ev = false ->
  let w' := exec (step ev) w in
  awaiting w' = [] /\
  truthy (localStorage w' !! REFRESH_TOKEN_STORAGE_KEY) = false.
Proof.
  intros (_ & _ & _ & Hm) Ha Hrt Hev. cbn zeta.
  rewrite step_storage, step_awaiting.
  destruct ev as [error | r | responseData |]; [| | done |]; unfold exec.
  - cbn [task]. destruct (handles_401 error) eqn:H401.
    + destruct (isRefreshing w) eqn:Hr.
      * by rewrite response_interceptor_queues.
      * rewrite response_interceptor_gives_up by done. project.
        by rewrite lookup_delete_eq.
    + by rewrite response_interceptor_passes.
  - by rewrite task_settled_idle.
  - cbn [task]. unfold logoutWithCleanup. rewrite clearTokens_run. project.
    by rewrite lookup_delete_eq.
Qed.

Lemma no_refresh_until_login (future : list Event) (w : World) :
  coherent w -> awaiting w = [] ->
  truthy (localStorage w !! REFRESH_TOKEN_STORAGE_KEY) = false ->
  forallb (fun ev => negb (is_login ev)) future = true ->
  refresh_calls (log (exec (run future) w)) = refresh_calls (log w).
Proof.
  revert w. induction future as [| ev future IH]; intros w Hco Ha Hrt Hno.
  - done.
  - cbn [forallb] in Hno. apply andb_prop in Hno as [Hev Hno].
    apply negb_true_iff in Hev.
    destruct (logged_out_stays ev w Hco Ha Hrt Hev) as (Ha' & Hrt').
    rewrite exec_run_cons, IH by (done || by apply coherent_step).
    unfold exec.
    destruct ev as [error | r | responseData |]; [| | done |].
    + destruct Hco as (_ & _ & _ & Hm).
      destruct (handles_401 error) eqn:H401.
      * destruct (isRefreshing w) eqn:Hr.
        -- by rewrite step_queues.
        -- rewrite step_gives_up by done. project.
           rewrite refresh_calls_app.
           change (refresh_calls [_; _; _; _]) with 0. lia.
      * rewrite step_passes by done. project.
        rewrite refresh_calls_app. change (refresh_calls [_]) with 0. lia.
    + destruct Hco as (_ & _ & _ & Hm).
      rewrite step_run. unfold exec. rewrite task_settled_idle by done.
      project. rewrite Hm. cbn [map]. by rewrite app_nil_r.
    + destruct Hco as (_ & _ & _ & Hm).
      rewrite step_run. unfold exec, task, logoutWithCleanup.
      rewrite clearTokens_run. project. rewrite Hm. cbn [map].
      rewrite app_nil_r, refresh_calls_app.
      change (refresh_calls [_; _]) with 0. lia.
Qed.

(** X8. When the refresh call fails, the task that resumes the parked
    handler rejects every queued deferred with the refresh error, removes
    both tokens from the store, redirects to [/login] and clears the flag;
    the request that started the refresh and every queued request fail
    with that same error, and none is re-issued.  From then on, whatever
    responses fail, the refresh endpoint is not called again until a
    login is answered. *)
Theorem refresh_failure_is_terminal
    (w : World) (c : InternalAxiosRequestConfig) (err : Thrown)
    (future : list Event) :
  reachable w -> awaiting w = [c] ->
  forallb (fun ev => negb (is_login ev)) future = true ->
  let w' := exec (step (RefreshSettled (RefreshErr err))) w in
  log w' =
    log w
      ++ map (fun d => RejectedDeferred d err) (failedQueue w)
      ++ [StorageRemove TOKEN_STORAGE_KEY;
          StorageRemove REFRESH_TOKEN_STORAGE_KEY;
          Redirect "/login";
          Failed c err]
      ++ map (fun d => Failed (waiting d) err) (failedQueue w) /\
  localStorage w' !! TOKEN_STORAGE_KEY = None /\
  localStorage w' !! REFRESH_TOKEN_STORAGE_KEY = None /\
  location_href w' = "/login" /\
  isRefreshing w' = false /\ failedQueue w' = [] /\ awaiting w' = [] /\
  requests_sent (log w') = requests_sent (log w) /\
  refresh_calls (log (exec (run future) w')) = refresh_calls (log w).
Proof.
  intros Hreach Ha Hno w'.
  pose proof (reachable_coherent w Hreach) as Hco.
  assert (Hco' : coherent w') by (by apply coherent_step).
  destruct Hco as (_ & _ & _ & Hm).
  assert (Hw' : w' =
    mkWorld
      (delete REFRESH_TOKEN_STORAGE_KEY
         (delete TOKEN_STORAGE_KEY (localStorage w)))
      false [] "/login" [] []
      (log w
         ++ map (fun d => RejectedDeferred d err) (failedQueue w)
         ++ [StorageRemove TOKEN_STORAGE_KEY;
             StorageRemove REFRESH_TOKEN_STORAGE_KEY;
             Redirect "/login";
             Failed c err]
         ++ map (fun d => Failed (waiting d) err) (failedQueue w))).
  { subst w'. unfold exec. by rewrite (step_settled_rejected c []). }
  assert (Hrt : localStorage w' !! REFRESH_TOKEN_STORAGE_KEY = None).
  { rewrite Hw'. project. apply lookup_delete_eq. }
  split; [by rewrite Hw' |]. split.
  { rewrite Hw'. project. rewrite lookup_delete_ne by done.
    apply lookup_delete_eq. }
  split; [exact Hrt |].
  do 4 (split; [by rewrite Hw' |]). split.
  - rewrite Hw'. project. unfold requests_sent.
    rewrite !List.flat_map_app, !flat_map_map_none by done.
    cbn [List.flat_map app]. by rewrite !app_nil_r.
  - rewrite (no_refresh_until_login future w' Hco');
      [| by rewrite Hw' | by rewrite Hrt | done].
    subst w'. by rewrite (step_settled_calls c []).
Qed.

Lemma refresh_failure_is_terminal_witness :
  let err := ThrownError "Network Error" in
  let later := [ResponseFailed (unauthorized (sample_request "/api/v1/users"));
                LoggedOut;
                ResponseFailed (unauthorized (sample_request "/api/v1/users"))] in
  let w' := exec (step (RefreshSettled (RefreshErr err))) refreshing_world in
  failures (log w') =
    [(set_retry true (sample_request "/api/v1/customers"), err);
     (sample_request "/api/v1/products", err)] /\
  refresh_calls (log (exec (run later) w')) = 1.
Proof.
  intros err later w'.
  destruct (refresh_failure_is_terminal refreshing_world
              (set_retry true (sample_request "/api/v1/customers")) err later)
    as (Hlog & _ & _ & _ & _ & _ & _ & _ & Hcalls);
    [by eexists _, _, _ | reflexivity | reflexivity |].
  split; [subst w'; rewrite Hlog; reflexivity | exact Hcalls].
Defined.

(** ** What every reachable state satisfies *)

Lemma handles_401_unmarked (error : AxiosError.t) :
  handles_401 error = true -> _retry (AxiosError.config error) = false.
Proof.
  unfold handles_401. intros [_ H]%andb_prop. by apply negb_true_iff in H.
Qed.

Lemma markers_step (ev : Event) (w : World) :
  coherent w -> markers_consistent w ->
  markers_consistent (exec (step ev) w).
Proof.
  intros (Hlen & Hpark & Hidle & Hm) (Hq & Ha). unfold markers_consistent.
  destruct ev as [error | r | responseData |].
  - destruct (handles_401 error) eqn:H401.
    + destruct (isRefreshing w) eqn:Hr.
      * unfold exec. rewrite step_queues by done. project. split; [| done].
        apply Forall_app. split; [done |]. constructor; [| done].
        by apply handles_401_unmarked.
      * destruct (truthy (localStorage w !! REFRESH_TOKEN_STORAGE_KEY))
          eqn:Hrt.
        -- apply truthy_true in Hrt as (rt & Hrt & Hne).
           unfold exec. rewrite (step_starts error w rt) by done. project.
           split; [done |]. apply Forall_app. split; [done |].
           by constructor.
        -- unfold exec. by rewrite step_gives_up.
    + unfold exec. by rewrite step_passes.
  - destruct (awaiting w) as [| c rest] eqn:Hw.
    + unfold exec. rewrite step_run. unfold exec.
      rewrite task_settled_idle by done. project. by rewrite Hw.
    + apply Forall_cons in Ha as [_ Ha]. unfold exec.
      destruct r as [data | err];
        [ rewrite (step_settled_fulfilled c rest) by done
        | rewrite (step_settled_rejected c rest) by done ]; done.
  - unfold exec. rewrite step_run. cbn [task]. project.
    destruct (login_frame responseData w) as (_ & Hq' & Ha' & _).
    cbn zeta in *. by rewrite Hq', Ha'.
  - unfold exec. rewrite step_run. unfold exec, task, logoutWithCleanup.
    rewrite clearTokens_run. by project.
Qed.

(** X9. In every state the page can reach, whatever the events were: at
    most one handler waits for a refresh call, and while one waits the
    flag is set; while the flag is clear the queue is empty.  The waiting
    request always carries the retry marker and no queued request ever
    does. *)
Theorem refresh_state_invariant
    (storage : gmap string string) (href : string) (history : list Event) :
  let w := exec (run history) (init storage href) in
  length (awaiting w) <= 1 /\
  (awaiting w ≠ [] -> isRefreshing w = true) /\
  (isRefreshing w = false -> failedQueue w = []) /\
  Forall (fun c => _retry c = true) (awaiting w) /\
  Forall (fun d => _retry (waiting d) = false) (failedQueue w).
Proof.
  cbn zeta.
  assert (H : forall w, coherent w -> markers_consistent w ->
            coherent (exec (run history) w)
            /\ markers_consistent (exec (run history) w)).
  { induction history as [| ev history IH]; intros w Hco Hmk; [done |].
    rewrite exec_run_cons.
    apply IH; [by apply coherent_step | by apply markers_step]. }
  destruct (H (init storage href)) as ((Hlen & Hpark & Hidle & _) & Hq & Ha).
  - apply coherent_init.
  - split; constructor.
  - done.
Qed.

Lemma refresh_state_invariant_witness :
  isRefreshing refreshing_world = true /\
  Forall (fun c => _retry c = true) (awaiting refreshing_world).
Proof.
  destruct (refresh_state_invariant logged_in_storage "/dashboard"
              [ResponseFailed (unauthorized (sample_request "/api/v1/customers"));
               ResponseFailed (unauthorized (sample_request "/api/v1/products"))])
    as (_ & Hpark & _ & Hmarked & _).
  split; [apply Hpark; discriminate | exact Hmarked].
Defined.

(** ** What the event loop does to the store *)

(** X10. No turn of the event loop touches an entry of [localStorage]
    other than the two token entries, and a failed response never writes
    a token: after it the store is as it was, or both tokens are gone. *)
Theorem only_token_entries_change (w : World) (ev : Event) :
  (forall k, k ≠ TOKEN_STORAGE_KEY -> k ≠ REFRESH_TOKEN_STORAGE_KEY ->
     localStorage (exec (step ev) w) !! k = localStorage w !! k) /\
  (forall error, ev = ResponseFailed error ->
     localStorage (exec (step ev) w) = localStorage w \/
     localStorage (exec (step ev) w) =
       delete REFRESH_TOKEN_STORAGE_KEY
         (delete TOKEN_STORAGE_KEY (localStorage w))).
Proof.
  rewrite step_storage. split.
  - intros k Hk Hr.
    destruct ev as [error | r | responseData |]; unfold exec.
    + cbn [task]. destruct (handles_401 error) eqn:H401.
      * destruct (isRefreshing w) eqn:Hflag.
        -- by rewrite response_interceptor_queues.
        -- destruct (truthy (localStorage w !! REFRESH_TOKEN_STORAGE_KEY))
             eqn:Hrt.
           ++ apply truthy_true in Hrt as (rt & Hrt & Hne).
              by rewrite (response_interceptor_starts error w rt).
           ++ rewrite response_interceptor_gives_up by done. project.
              by rewrite !lookup_delete_ne.
      * by rewrite response_interceptor_passes.
    + destruct (awaiting w) as [| c rest] eqn:Ha.
      * by rewrite task_settled_idle.
      * rewrite (task_settled c rest) by done.
        destruct r as [data | err].
        -- rewrite resume_fulfilled. project.
           unfold refreshed_storage, if_truthy.
           destruct (refreshToken data) as [x|];
             [destruct (truthy_string x) |];
             by rewrite !lookup_insert_ne.
        -- rewrite resume_rejected. project. by rewrite !lookup_delete_ne.
    + pose proof (loginWithToken_storage responseData w k) as H.
      unfold exec in H. cbn [task]. rewrite H.
      repeat case_decide. all: done.
    + cbn [task]. unfold logoutWithCleanup. rewrite clearTokens_run. project.
      by rewrite !lookup_delete_ne.
  - intros error ->. unfold exec. cbn [task].
    destruct (handles_401 error) eqn:H401.
    + destruct (isRefreshing w) eqn:Hflag.
      * left. by rewrite response_interceptor_queues.
      * destruct (truthy (localStorage w !! REFRESH_TOKEN_STORAGE_KEY))
          eqn:Hrt.
        -- apply truthy_true in Hrt as (rt & Hrt & Hne). left.
           by rewrite (response_interceptor_starts error w rt).
        -- right. by rewrite response_interceptor_gives_up.
    + left. by rewrite response_interceptor_passes.
Qed.

Lemma only_token_entries_change_witness :
  let w := init (<["theme" := "dark"]> logged_in_storage) "/dashboard" in
  let history :=
    [ResponseFailed (unauthorized (sample_request "/api/v1/customers"));
     RefreshSettled (RefreshErr ThrownOther)] in
  localStorage (exec (run history) w) !! "theme" = Some "dark".
Proof.
  intros w history. subst history.
  rewrite !exec_run_cons, exec_run_nil.
  destruct (only_token_entries_change
              (exec (step (ResponseFailed
                             (unauthorized (sample_request "/api/v1/customers"))))
                 w)
              (RefreshSettled (RefreshErr ThrownOther))) as (Hsettle & _).
  destruct (only_token_entries_change w
              (ResponseFailed
                 (unauthorized (sample_request "/api/v1/customers"))))
    as (Hfail & _).
  rewrite Hsettle, Hfail by done. reflexivity.
Defined.

(** ** A refresh answered without tokens *)

(** X11. The refresh answer is taken as it comes.  When it holds no
    refresh token, or an empty one, the refresh token stored before stays
    in the store.  When its access token is the empty string, the store
    holds the empty string afterwards, [hasToken] is false, the request
    that started the refresh is re-issued with the header [Bearer ] and
    every queued request is re-issued exactly as it was queued. *)
Theorem refresh_answer_taken_as_it_comes
    (w : World) (c : InternalAxiosRequestConfig) (data : RefreshData) :
  reachable w -> awaiting w = [c] ->
  let w' := exec (step (RefreshSettled (RefreshOk data))) w in
  (truthy (refreshToken data) = false ->
     localStorage w' !! REFRESH_TOKEN_STORAGE_KEY
       = localStorage w !! REFRESH_TOKEN_STORAGE_KEY) /\
  (token data = "" ->
     localStorage w' !! TOKEN_STORAGE_KEY = Some "" /\
     eval tokenManager.hasToken w' = false /\
     requests_sent (log w') =
       requests_sent (log w)
         ++ set_Authorization "Bearer " c :: map waiting (failedQueue w)).
Proof.
  intros Hreach Ha w'.
  destruct (reachable_coherent w Hreach) as (_ & _ & _ & Hm).
  subst w'. unfold eval, exec. rewrite hasToken_run.
  rewrite (step_settled_fulfilled c []) by done. project. split.
  - intros Hrt. unfold refreshed_storage. rewrite if_truthy_no by done.
    by rewrite lookup_insert_ne.
  - intros Ht.
    assert (Hstore : refreshed_storage data (localStorage w)
                       !! TOKEN_STORAGE_KEY = Some "").
    { rewrite refreshed_storage_token. by rewrite Ht. }
    split; [exact Hstore |]. split; [by rewrite Hstore |].
    unfold requests_sent.
    rewrite !List.flat_map_app. fold (requests_sent (refresh_writes data)).
    rewrite requests_sent_writes, flat_map_map_none by done.
    cbn [app List.flat_map].
    rewrite (flat_map_map_one _ _
               (fun d => intercepted (refreshed_storage data (localStorage w))
                           (waiting d))) by done.
    unfold intercepted. rewrite Hstore, Ht. cbn [if_truthy truthy_string truthy].
    cbn [String.eqb negb app]. done.
Qed.

Lemma refresh_answer_taken_as_it_comes_witness :
  let w' := exec (step (RefreshSettled (RefreshOk (mkRefreshData "" None))))
              refreshing_world in
  localStorage w' !! REFRESH_TOKEN_STORAGE_KEY = Some "r0" /\
  requests_sent (log w') =
    [mkConfig "/api/v1/customers" "get" {[ "Authorization" := "Bearer " ]} true;
     sample_request "/api/v1/products"].
Proof.
  intros w'.
  destruct (refresh_answer_taken_as_it_comes refreshing_world
              (set_retry true (sample_request "/api/v1/customers"))
              (mkRefreshData "" None))
    as (Hkeep & Hempty); [by eexists _, _, _ | reflexivity |].
  destruct Hempty as (_ & _ & Hsent); [reflexivity |].
  split; [subst w'; rewrite Hkeep; reflexivity |].
  subst w'. rewrite Hsent. reflexivity.
Defined.

(** ** Draining the queue *)

(** X12. [processQueue] settles each queued deferred once and leaves the
    queue empty: it logs one settlement per deferred and nothing else,
    and a second call right after it, with whatever arguments, does
    nothing at all. *)
Theorem processQueue_drains_once
    (w : World) (error error' : option Thrown) (token token' : option string) :
  let w' := exec (processQueue error token) w in
  failedQueue w' = [] /\
  log w' = log w ++ map (settle_effect error token) (failedQueue w) /\
  length (microtasks w') = length (microtasks w) + length (failedQueue w) /\
  localStorage w' = localStorage w /\ isRefreshing w' = isRefreshing w /\
  exec (processQueue error' token') w' = w'.
Proof.
  cbn zeta. unfold exec. rewrite !processQueue_run. project.
  repeat split.
  - by rewrite length_app, length_map.
  - cbn [map]. by rewrite !app_nil_r.
Qed.

(** ** The retry delay *)

(** X13. The retry delay of queries never decreases with the attempt: it
    is [1000 * 2 ^ n] milliseconds for the attempts 0 to 4 and stays at
    the cap of 30 000 from attempt 5 on.  Mutations are configured with
    the same delay. *)
Theorem retryDelay_monotone_then_capped (n m : nat) :
  (n <= m ->
   (queryClient.retryDelay queryClient.queries n
    <= queryClient.retryDelay queryClient.queries m)%Z) /\
  (n <= 4 ->
   queryClient.retryDelay queryClient.queries n = (1000 * 2 ^ Z.of_nat n)%Z) /\
  (5 <= n -> queryClient.retryDelay queryClient.queries n = 30000%Z) /\
  queryClient.mutation_retryDelay queryClient.mutations n
    = queryClient.retryDelay queryClient.queries n.
Proof.
  rewrite !retryDelay_unfold. repeat split.
  - intros Hle.
    assert (2 ^ Z.of_nat n <= 2 ^ Z.of_nat m)%Z
      by (apply Z.pow_le_mono_r; lia).
    lia.
  - intros Hle.
    assert (2 ^ Z.of_nat n <= 2 ^ 4)%Z by (apply Z.pow_le_mono_r; lia).
    lia.
  - intros Hle.
    assert (2 ^ 5 <= 2 ^ Z.of_nat n)%Z by (apply Z.pow_le_mono_r; lia).
    lia.
Qed.

Lemma retryDelay_monotone_then_capped_witness :
  (queryClient.retryDelay queryClient.queries 3
   <= queryClient.retryDelay queryClient.queries 7)%Z /\
  queryClient.retryDelay queryClient.queries 4 = 16000%Z /\
  queryClient.retryDelay queryClient.queries 5 = 30000%Z.
Proof.
  destruct (retryDelay_monotone_then_capped 3 7) as (Hmono & _).
  destruct (retryDelay_monotone_then_capped 4 4) as (_ & Hbelow & _).
  destruct (retryDelay_monotone_then_capped 5 5) as (_ & _ & Hcap & _).
  split; [apply Hmono; lia |].
  split; [rewrite Hbelow by lia; reflexivity | apply Hcap; lia].
Defined.

(** ** The hooks with loading and error state *)

Lemma useApi_after_snoc {T : Type} (ms : list (useApi.Moment T))
    (m : useApi.Moment T) (s : useApi.UseApiState T) :
  useApi.after (ms ++ [m]) s = useApi.setState m (useApi.after ms s).
Proof. unfold useApi.after. by rewrite fold_left_app. Qed.

(** X14. Whatever the order in which [execute] is called, its calls are
    answered and [reset] is called, the state of [useApi] never shows
    data and an error together and shows neither while [loading] is
    true; an error it shows is a normalised one, the same that [execute]
    rethrows, and after a rejected call [loading] is false. *)
Theorem useApi_never_shows_data_with_error
    {T : Type} (ms : list (useApi.Moment T)) :
  let s := useApi.after ms useApi.initial in
  (useApi.loading s = true ->
     useApi.data s = None /\ useApi.error s = None) /\
  (useApi.data s = None \/ useApi.error s = None) /\
  (forall e, useApi.error s = Some e ->
     useApi.loading s = false /\
     exists thrown, e = useApi.rethrown thrown) /\
  (forall thrown,
     useApi.after (ms ++ [useApi.ExecuteRejected thrown]) useApi.initial
     = useApi.mkState None (Some (useApi.rethrown thrown)) false).
Proof.
  cbn zeta. split; [| split; [| split]].
  - destruct ms as [| m ms _] using rev_ind; [done |].
    rewrite useApi_after_snoc. by destruct m.
  - destruct ms as [| m ms _] using rev_ind; [by left |].
    rewrite useApi_after_snoc. destruct m; cbn; auto.
  - intros e. destruct ms as [| m ms _] using rev_ind; [done |].
    rewrite useApi_after_snoc. destruct m; cbn; try done.
    intros [= <-]. split; [done |]. by exists thrown.
  - intros thrown. by rewrite useApi_after_snoc.
Qed.

Lemma useApi_never_shows_data_with_error_witness :
  let s := useApi.after
             [useApi.ExecuteCalled; useApi.ExecuteCalled;
              useApi.ExecuteFulfilled 7;
              useApi.ExecuteRejected (ThrownError "boom")]
             useApi.initial in
  useApi.loading s = false /\
  exists thrown, useApi.error s = Some (useApi.rethrown thrown).
Proof.
  intros s.
  destruct (useApi_never_shows_data_with_error
              [useApi.ExecuteCalled; useApi.ExecuteCalled;
               useApi.ExecuteFulfilled 7;
               useApi.ExecuteRejected (ThrownError "boom")])
    as (_ & _ & Herr & _).
  destruct (Herr (handleApiError (ThrownError "boom")) eq_refl)
    as (Hload & thrown & Heq).
  split; [exact Hload |]. exists thrown. subst s. cbn. by rewrite <- Heq.
Defined.

Lemma useLoginManual_after_snoc {T : Type}
    (ms : list (useLoginManual.Moment T)) (m : useLoginManual.Moment T)
    (s : useLoginManual.State T) :
  useLoginManual.after (ms ++ [m]) s
  = useLoginManual.update m (useLoginManual.after ms s).
Proof. unfold useLoginManual.after. by rewrite fold_left_app. Qed.

(** X15. [useLoginManual] keeps its three pieces of state apart.  While
    [isLoading] is true no error is shown, whatever happened before; but
    the data of an earlier successful login is only replaced by a later
    success or removed by [reset], so after a login that succeeded and a
    later one that failed the hook shows the old data next to the new
    error. *)
Theorem useLoginManual_keeps_earlier_data
    {T : Type} (ms : list (useLoginManual.Moment T)) (response : T)
    (err : ApiError.t) :
  let s := useLoginManual.after ms useLoginManual.initial in
  (useLoginManual.isLoading s = true -> useLoginManual.error s = None) /\
  useLoginManual.data
    (useLoginManual.update (useLoginManual.LoginRejected err) s)
    = useLoginManual.data s /\
  useLoginManual.data
    (useLoginManual.update useLoginManual.PerformLoginCalled s)
    = useLoginManual.data s /\
  useLoginManual.after
    (ms ++ [useLoginManual.LoginFulfilled response;
            useLoginManual.PerformLoginCalled;
            useLoginManual.LoginRejected err])
    useLoginManual.initial
  = useLoginManual.mkState false (Some err) (Some response).
Proof.
  cbn zeta. split; [| split; [done | split; [done |]]].
  - destruct ms as [| m ms _] using rev_ind; [done |].
    rewrite useLoginManual_after_snoc. by destruct m.
  - unfold useLoginManual.after. by rewrite fold_left_app.
Qed.

Lemma useLoginManual_keeps_earlier_data_witness :
  let s := useLoginManual.after
             [useLoginManual.PerformLoginCalled;
              useLoginManual.LoginRejected (handleApiError ThrownOther);
              useLoginManual.PerformLoginCalled]
             (@useLoginManual.initial nat) in
  useLoginManual.error s = None.
Proof.
  intros s.
  destruct (useLoginManual_keeps_earlier_data
              [useLoginManual.PerformLoginCalled;
               useLoginManual.LoginRejected (handleApiError ThrownOther);
               useLoginManual.PerformLoginCalled]
              0 (handleApiError ThrownOther)) as (Hload & _).
  apply Hload. reflexivity.
Defined.

(** ** Lists updated and filtered by id *)

Section by_id.

Context {Item : Type} (get_id : Item -> string) (f : Item -> Item).
Hypothesis f_keeps_id : forall x, get_id (f x) = get_id x.

Local Abbreviation update i l :=
  (map (fun item => if String.eqb (get_id item) i then f item else item) l).

Local Abbreviation remove i l :=
  (List.filter (fun item => negb (String.eqb (get_id item) i)) l).

Lemma update_ids (i : string) (l : list Item) :
  map get_id (update i l) = map get_id l.
Proof.
  induction l as [| x l IH]; [done |]. cbn. rewrite IH. f_equal.
  by destruct (String.eqb (get_id x) i).
Qed.

Lemma update_lookup (i : string) (l : list Item) (n : nat) :
  update i l !! n =
  (fun item => if String.eqb (get_id item) i then f item else item) <$> l !! n.
Proof. apply list_lookup_fmap. Qed.

Lemma update_absent (i : string) (l : list Item) :
  i ∉ map get_id l -> update i l = l.
Proof.
  induction l as [| x l IH]; [done |]. cbn. intros Hi.
  apply not_elem_of_cons in Hi as [Hx Hl]. rewrite IH by done.
  destruct (String.eqb_spec (get_id x) i); [congruence | done].
Qed.

Lemma update_fixed (i : string) (l : list Item) :
  (forall x, x ∈ l -> get_id x = i -> f x = x) -> update i l = l.
Proof.
  induction l as [| x l IH]; [done |]. cbn. intros H.
  rewrite IH by (intros y Hy; apply H; by right).
  destruct (String.eqb_spec (get_id x) i) as [Hx |]; [| done].
  rewrite H; [done | by left | done].
Qed.

Lemma update_twice (i : string) (l : list Item) :
  (forall x, f (f x) = f x) -> update i (update i l) = update i l.
Proof.
  intros Hff. induction l as [| x l IH]; [done |]. cbn. rewrite IH. f_equal.
  destruct (String.eqb_spec (get_id x) i) as [Hx | Hx].
  - rewrite f_keeps_id. apply String.eqb_eq in Hx. by rewrite Hx, Hff.
  - apply String.eqb_neq in Hx. by rewrite Hx.
Qed.

Lemma remove_elem (i : string) (l : list Item) (x : Item) :
  x ∈ remove i l <-> x ∈ l /\ get_id x ≠ i.
Proof.
  rewrite !list_elem_of_In, List.filter_In, negb_true_iff.
  by rewrite String.eqb_neq.
Qed.

Lemma remove_ids (i : string) (l : list Item) : i ∉ map get_id (remove i l).
Proof.
  intros (x & Hx & Hin)%list_elem_of_fmap.
  apply remove_elem in Hin as [_ Hne]. congruence.
Qed.

Lemma remove_absent (i : string) (l : list Item) :
  i ∉ map get_id l -> remove i l = l.
Proof.
  induction l as [| x l IH]; [done |]. cbn. intros Hi.
  apply not_elem_of_cons in Hi as [Hx Hl]. rewrite IH by done.
  destruct (String.eqb_spec (get_id x) i); [congruence | done].
Qed.

Lemma remove_appended (i : string) (l : list Item) (x : Item) :
  get_id x = i -> i ∉ map get_id l -> remove i (l ++ [x]) = l.
Proof.
  intros Hx Hi. rewrite List.filter_app. cbn.
  apply String.eqb_eq in Hx. rewrite Hx. cbn. rewrite app_nil_r.
  by apply remove_absent.
Qed.

Lemma remove_sublist (i : string) (l : list Item) : remove i l `sublist_of` l.
Proof.
  induction l as [| x l IH]; [done |]. cbn.
  destruct (negb (String.eqb (get_id x) i));
    [by apply sublist_skip | by apply sublist_cons].
Qed.

Lemma remove_ids_sublist (i : string) (l : list Item) :
  map get_id (remove i l) `sublist_of` map get_id l.
Proof. apply (fmap_sublist get_id), remove_sublist. Qed.

Lemma remove_update (i : string) (l : list Item) :
  remove i (update i l) = remove i l.
Proof.
  induction l as [| x l IH]; [done |]. cbn.
  destruct (String.eqb_spec (get_id x) i) as [Hx | Hx].
  - rewrite f_keeps_id. apply String.eqb_eq in Hx. by rewrite Hx.
  - apply String.eqb_neq in Hx. rewrite Hx. cbn. by rewrite IH.
Qed.

End by_id.

(** ** Warehouse locations *)

Lemma patched_id (data : option warehouses.Request)
    (item : warehouses.WarehouseLocationResponse) :
  warehouses.id (warehouses.patched data item) = warehouses.id item.
Proof. reflexivity. Qed.

Lemma patched_nothing (item : warehouses.WarehouseLocationResponse) :
  warehouses.patched None item = item /\
  warehouses.patched
    (Some (warehouses.mkRequest None None None None None)) item = item.
Proof. by destruct item. Qed.

Lemma patched_twice (data : option warehouses.Request)
    (item : warehouses.WarehouseLocationResponse) :
  warehouses.patched data (warehouses.patched data item)
  = warehouses.patched data item.
Proof.
  destruct item, data as [[z a s b o] |]; [| done].
  unfold warehouses.patched, warehouses.field. cbn.
  by destruct z, a, s, b, o.
Qed.

(** X16. [updateWarehouse] replaces, in place, every record with the
    given id by the record patched with the non-null fields of the
    request: the list keeps its length, its ids and their order, and every
    record with another id is kept as it is.  An id that no record has,
    a missing request and a request with no field set all leave the list
    unchanged, and applying the same update twice gives what applying it
    once gives. *)
Theorem updateWarehouse_keeps_the_list_shape
    (id' : string) (data : option warehouses.Request)
    (prev : list warehouses.WarehouseLocationResponse) :
  let next := warehouses.updateWarehouse id' data prev in
  map warehouses.id next = map warehouses.id prev /\
  length next = length prev /\
  (forall n, next !! n =
     (fun item => if String.eqb (warehouses.id item) id'
                  then warehouses.patched data item else item) <$> prev !! n) /\
  (id' ∉ map warehouses.id prev -> next = prev) /\
  warehouses.updateWarehouse id' None prev = prev /\
  warehouses.updateWarehouse id'
    (Some (warehouses.mkRequest None None None None None)) prev = prev /\
  warehouses.updateWarehouse id' data next = next.
Proof.
  cbn zeta. unfold warehouses.updateWarehouse.
  split; [by apply update_ids |].
  split; [by rewrite length_map |].
  split; [intros n; apply list_lookup_fmap |].
  split; [apply update_absent |].
  split; [apply update_fixed; intros; apply patched_nothing |].
  split; [apply update_fixed; intros; apply patched_nothing |].
  apply update_twice; [apply patched_id | apply patched_twice].
Qed.

Lemma updateWarehouse_keeps_the_list_shape_witness :
  warehouses.updateWarehouse "7"
    (Some (warehouses.mkRequest (Some "Z") None None None (Some true)))
    warehouses.MOCK_WAREHOUSES
  = warehouses.MOCK_WAREHOUSES.
Proof.
  destruct (updateWarehouse_keeps_the_list_shape "7"
              (Some (warehouses.mkRequest (Some "Z") None None None (Some true)))
              warehouses.MOCK_WAREHOUSES) as (_ & _ & _ & Habsent & _).
  apply Habsent. cbn. rewrite !not_elem_of_cons. repeat split; try done.
  apply not_elem_of_nil.
Defined.

(** X17. [deleteWarehouse] removes every record with the given id and
    nothing else: what is left are exactly the records with another id,
    in their old order.  An id that no record has leaves the list
    unchanged, deleting twice is deleting once, and an update of the same
    id just before the deletion makes no difference. *)
Theorem deleteWarehouse_removes_the_id
    (id' : string) (data : option warehouses.Request)
    (prev : list warehouses.WarehouseLocationResponse) :
  let next := warehouses.deleteWarehouse id' prev in
  (id' ∉ map warehouses.id next) /\
  (forall item, item ∈ next <-> item ∈ prev /\ warehouses.id item ≠ id') /\
  (next `sublist_of` prev) /\
  (id' ∉ map warehouses.id prev -> next = prev) /\
  warehouses.deleteWarehouse id' next = next /\
  warehouses.deleteWarehouse id' (warehouses.updateWarehouse id' data prev)
    = next.
Proof.
  cbn zeta. unfold warehouses.deleteWarehouse, warehouses.updateWarehouse.
  split; [apply remove_ids |].
  split; [intros item; apply remove_elem |].
  split; [apply remove_sublist |].
  split; [apply remove_absent |].
  split; [apply remove_absent, remove_ids |].
  apply remove_update, patched_id.
Qed.

Lemma deleteWarehouse_removes_the_id_witness :
  warehouses.deleteWarehouse "9" warehouses.MOCK_WAREHOUSES
  = warehouses.MOCK_WAREHOUSES /\
  map warehouses.id (warehouses.deleteWarehouse "2" warehouses.MOCK_WAREHOUSES)
  = ["1"; "3"; "4"; "5"; "6"].
Proof.
  destruct (deleteWarehouse_removes_the_id "9" None warehouses.MOCK_WAREHOUSES)
    as (_ & _ & _ & Habsent & _).
  split; [| reflexivity].
  apply Habsent. cbn. rewrite !not_elem_of_cons. repeat split; try done.
  apply not_elem_of_nil.
Defined.

(** X18. [createWarehouse] appends one record at the end and keeps the
    others: its id is the timestamp, an absent or empty zone code or bin
    becomes [null], an absent aisle or shelf becomes [0] and an absent
    flag becomes [false].  Deleting the new id right away gives the old
    list back when no record had that id before.  Two records created
    within the same millisecond share their id, and then deleting that id
    removes both. *)
Theorem createWarehouse_appends
    (now : string) (data data' : option warehouses.Request)
    (prev : list warehouses.WarehouseLocationResponse) :
  let next := warehouses.createWarehouse now data prev in
  next =
    prev ++ [warehouses.mkWarehouse now
               (or_null truthy (warehouses.field data warehouses.req_zoneCode))
               (or_value truthy_number
                  (warehouses.field data warehouses.req_aisle) 0%Z)
               (or_value truthy_number
                  (warehouses.field data warehouses.req_shelf) 0%Z)
               (or_null truthy (warehouses.field data warehouses.req_bin))
               (or_value truthy_bool
                  (warehouses.field data warehouses.req_isOverstocked) false)] /\
  warehouses.createWarehouse now None prev
    = prev ++ [warehouses.mkWarehouse now None 0%Z 0%Z None false] /\
  warehouses.createWarehouse now
    (Some (warehouses.mkRequest (Some "") (Some 0%Z) None (Some "") (Some false)))
    prev
    = prev ++ [warehouses.mkWarehouse now None 0%Z 0%Z None false] /\
  (now ∉ map warehouses.id prev -> warehouses.deleteWarehouse now next = prev) /\
  warehouses.deleteWarehouse now (warehouses.createWarehouse now data' next)
    = warehouses.deleteWarehouse now prev.
Proof.
  cbn zeta. split; [done |]. split; [done |]. split; [done |]. split.
  - intros Hfresh. unfold warehouses.createWarehouse, warehouses.deleteWarehouse.
    by apply remove_appended.
  - unfold warehouses.createWarehouse, warehouses.deleteWarehouse.
    rewrite !List.filter_app. cbn. rewrite String.eqb_refl. cbn.
    by rewrite !app_nil_r.
Qed.

Lemma createWarehouse_appends_witness :
  warehouses.deleteWarehouse "1730000000000"
    (warehouses.createWarehouse "1730000000000"
       (Some (warehouses.mkRequest (Some "D") (Some 2%Z) (Some 1%Z) None None))
       warehouses.MOCK_WAREHOUSES)
  = warehouses.MOCK_WAREHOUSES.
Proof.
  destruct (createWarehouse_appends "1730000000000"
              (Some (warehouses.mkRequest (Some "D") (Some 2%Z) (Some 1%Z)
                       None None))
              None warehouses.MOCK_WAREHOUSES) as (_ & _ & _ & Hback & _).
  apply Hback. cbn. rewrite !not_elem_of_cons. repeat split; try done.
  apply not_elem_of_nil.
Defined.

Lemma same_id_same_record {A : Type} (get_id : A -> string) (l : list A)
    (x y : A) :
  NoDup (map get_id l) -> x ∈ l -> y ∈ l -> get_id x = get_id y -> x = y.
Proof.
  induction l as [| z l IH]; cbn; [by intros _ ?%elem_of_nil |].
  intros [Hz Hnd]%NoDup_cons [-> | Hx]%elem_of_cons [-> | Hy]%elem_of_cons Heq.
  - done.
  - exfalso. apply Hz. rewrite Heq. by apply (list_elem_of_fmap_2 get_id).
  - exfalso. apply Hz. rewrite <- Heq. by apply (list_elem_of_fmap_2 get_id).
  - by apply IH.
Qed.

(** X19. Ids that are pairwise different stay so under [updateWarehouse]
    and [deleteWarehouse]; under [createWarehouse] they stay so exactly
    when no record already has the timestamp as its id. *)
Theorem warehouse_ids_stay_unique
    (id' now : string) (data : option warehouses.Request)
    (prev : list warehouses.WarehouseLocationResponse) :
  NoDup (map warehouses.id prev) ->
  NoDup (map warehouses.id (warehouses.updateWarehouse id' data prev)) /\
  NoDup (map warehouses.id (warehouses.deleteWarehouse id' prev)) /\
  (NoDup (map warehouses.id (warehouses.createWarehouse now data prev))
   <-> now ∉ map warehouses.id prev).
Proof.
  intros Hnd. split; [| split].
  - unfold warehouses.updateWarehouse. by rewrite update_ids.
  - eapply sublist_NoDup; [exact Hnd |].
    apply (remove_ids_sublist warehouses.id).
  - unfold warehouses.createWarehouse. rewrite map_app. cbn.
    rewrite NoDup_app. split.
    + intros (_ & Hdisj & _) Hin. apply (Hdisj now Hin). by left.
    + intros Hfresh. split; [done |]. split.
      * intros x Hx [-> | []%elem_of_nil]%elem_of_cons. done.
      * apply NoDup_singleton.
Qed.

Lemma warehouse_ids_stay_unique_witness :
  NoDup (map warehouses.id
           (warehouses.deleteWarehouse "3"
              (warehouses.updateWarehouse "2" None warehouses.MOCK_WAREHOUSES))).
Proof.
  assert (Hmock : NoDup (map warehouses.id warehouses.MOCK_WAREHOUSES)).
  { apply (bool_decide_unpack _). reflexivity. }
  destruct (warehouse_ids_stay_unique "2" "0" None warehouses.MOCK_WAREHOUSES
              Hmock) as (Hupd & _).
  destruct (warehouse_ids_stay_unique "3" "0" None
              (warehouses.updateWarehouse "2" None warehouses.MOCK_WAREHOUSES)
              Hupd) as (_ & Hdel & _).
  exact Hdel.
Defined.

(** ** Editing a warehouse location through the form *)

(** X20. The edit form sends a falsy value as [null] and the hook keeps
    the old field for a [null], so an edit can set a field but cannot
    empty it: the overstocked flag after the edit is the old flag or the
    ticked box, so it can be switched on and never off; an aisle or shelf
    of [0] and an empty zone code or bin leave the old value in place.
    The hook itself does switch the flag off when it is handed [false]. *)
Theorem edit_form_cannot_clear_a_field
    (values : warehouses.FormValues)
    (item : warehouses.WarehouseLocationResponse) :
  let item' :=
    warehouses.patched (Some (warehouses.submitData_editing values)) item in
  warehouses.isOverstocked item' =
    truthy_bool (warehouses.form_isOverstocked values)
    || warehouses.isOverstocked item /\
  warehouses.aisle item' =
    or_value truthy_number (warehouses.form_aisle values)
      (warehouses.aisle item) /\
  warehouses.shelf item' =
    or_value truthy_number (warehouses.form_shelf values)
      (warehouses.shelf item) /\
  warehouses.zoneCode item' =
    or_else (warehouses.form_zoneCode values) (warehouses.zoneCode item) /\
  warehouses.bin item' =
    or_else (warehouses.form_bin values) (warehouses.bin item) /\
  warehouses.isOverstocked
    (warehouses.patched
       (Some (warehouses.mkRequest None None None None (Some false))) item)
    = false.
Proof.
  destruct values as [z a s b o], item as [i iz ia is_ ib io].
  unfold warehouses.patched, warehouses.submitData_editing, warehouses.field,
    or_null, or_value, or_else, nullish.
  cbn. repeat split.
  - by destruct o as [[] |].
  - destruct a as [a|]; [| done]. cbn. by destruct (Z.eqb a 0).
  - destruct s as [s|]; [| done]. cbn. by destruct (Z.eqb s 0).
  - destruct z as [z|]; [| done]. cbn. by destruct (String.eqb z "").
  - destruct b as [b|]; [| done]. cbn. by destruct (String.eqb b "").
Qed.

Lemma patched_prefill (item : warehouses.WarehouseLocationResponse) :
  warehouses.patched
    (Some (warehouses.submitData_editing (warehouses.prefill item))) item
  = item.
Proof.
  destruct item as [i z a s b o].
  unfold warehouses.patched, warehouses.submitData_editing, warehouses.prefill,
    warehouses.field, or_null, or_value, nullish.
  cbn. f_equal.
  - destruct z as [z|]; [| done]. cbn.
    destruct (String.eqb z "") eqn:E; cbn; rewrite ?E; done.
  - destruct (Z.eqb a 0) eqn:E; cbn; rewrite ?E; done.
  - destruct (Z.eqb s 0) eqn:E; cbn; rewrite ?E; done.
  - destruct b as [b|]; [| done]. cbn.
    destruct (String.eqb b "") eqn:E; cbn; rewrite ?E; done.
  - by destruct o.
Qed.

(** X21. Opening the edit form on a record and submitting the values it
    was prefilled with changes nothing: the record is patched to itself,
    and when the ids of the list are pairwise different the whole list
    stays as it was. *)
Theorem unchanged_edit_changes_nothing
    (now : string) (record : warehouses.WarehouseLocationResponse)
    (prev : list warehouses.WarehouseLocationResponse) :
  NoDup (map warehouses.id prev) -> record ∈ prev ->
  warehouses.patched
    (Some (warehouses.submitData_editing (warehouses.prefill record))) record
    = record /\
  warehouses.handleSubmitWarehouse now (Some record)
    (warehouses.prefill record) prev = prev.
Proof.
  intros Hnd Hin. split; [apply patched_prefill |].
  unfold warehouses.handleSubmitWarehouse, warehouses.updateWarehouse.
  apply update_fixed. intros x Hx Hid.
  rewrite (same_id_same_record warehouses.id prev x record Hnd Hx Hin Hid).
  apply patched_prefill.
Qed.

Lemma unchanged_edit_changes_nothing_witness :
  let record := warehouses.mkWarehouse "5" (Some "C") 1%Z 1%Z None true in
  warehouses.handleSubmitWarehouse "0" (Some record)
    (warehouses.prefill record) warehouses.MOCK_WAREHOUSES
  = warehouses.MOCK_WAREHOUSES.
Proof.
  intros record.
  apply (unchanged_edit_changes_nothing "0" record warehouses.MOCK_WAREHOUSES).
  - apply (bool_decide_unpack _). reflexivity.
  - do 4 apply list_elem_of_further. apply list_elem_of_here.
Defined.

(** ** Part locations *)

Lemma part_patched_nothing (item : partLocations.PartLocationResponse) :
  partLocations.patched None item = item.
Proof. by destruct item. Qed.

Lemma part_patched_twice (data : option partLocations.Request)
    (item : partLocations.PartLocationResponse) :
  partLocations.patched data (partLocations.patched data item)
  = partLocations.patched data item.
Proof.
  destruct item, data as [[p wl q] |]; [| done].
  unfold partLocations.patched, partLocations.field. cbn.
  by destruct p, wl, q.
Qed.

(** X22. The part-location list behaves like the warehouse list.
    [updatePartLocation] keeps the ids and their order, changes nothing
    for an id that no record has or for a missing request, and is
    idempotent; [deletePartLocation] leaves no record with the id and
    keeps the others in order; [createPartLocation] appends a record whose
    absent part id and warehouse id are the empty string and whose absent
    quantity is [0], and deleting its id right away gives the old list
    back when the id was new.  Unlike the warehouse edit, an update may
    set the quantity to [0] and a part id to the empty string. *)
Theorem partLocations_list_operations
    (id' now : string) (data : option partLocations.Request)
    (prev : list partLocations.PartLocationResponse) :
  let updated := partLocations.updatePartLocation id' data prev in
  let deleted := partLocations.deletePartLocation id' prev in
  map partLocations.id updated = map partLocations.id prev /\
  (id' ∉ map partLocations.id prev -> updated = prev /\ deleted = prev) /\
  partLocations.updatePartLocation id' None prev = prev /\
  partLocations.updatePartLocation id' data updated = updated /\
  (id' ∉ map partLocations.id deleted) /\
  (forall item, item ∈ deleted <->
     item ∈ prev /\ partLocations.id item ≠ id') /\
  (deleted `sublist_of` prev) /\
  partLocations.createPartLocation now None prev
    = prev ++ [partLocations.mkPartLocation now "" "" 0%Z] /\
  (now ∉ map partLocations.id prev ->
   partLocations.deletePartLocation now
     (partLocations.createPartLocation now data prev) = prev) /\
  (forall item,
     partLocations.patched
       (Some (partLocations.mkRequest (Some "") None (Some 0%Z))) item
     = partLocations.mkPartLocation (partLocations.id item) ""
         (partLocations.warehouseLocationId item) 0%Z).
Proof.
  cbn zeta.
  unfold partLocations.updatePartLocation, partLocations.deletePartLocation,
    partLocations.createPartLocation.
  split; [by apply update_ids |].
  split; [intros H; split; [by apply update_absent | by apply remove_absent] |].
  split; [apply update_fixed; intros; apply part_patched_nothing |].
  split; [by apply update_twice; [| apply part_patched_twice] |].
  split; [apply remove_ids |].
  split; [intros item; apply remove_elem |].
  split; [apply remove_sublist |].
  split; [done |].
  split; [intros Hfresh; by apply remove_appended |].
  by intros [].
Qed.

Lemma partLocations_list_operations_witness :
  let prev := [partLocations.mkPartLocation "1" "PART-001" "1" 100%Z;
               partLocations.mkPartLocation "2" "PART-002" "2" 50%Z] in
  partLocations.updatePartLocation "3"
    (Some (partLocations.mkRequest None None (Some 0%Z))) prev = prev /\
  partLocations.deletePartLocation "9"
    (partLocations.createPartLocation "9" None prev) = prev.
Proof.
  intros prev.
  destruct (partLocations_list_operations "3" "9"
              (Some (partLocations.mkRequest None None (Some 0%Z))) prev)
    as (_ & Habsent & _).
  destruct (partLocations_list_operations "3" "9" None prev)
    as (_ & _ & _ & _ & _ & _ & _ & _ & Hback & _).
  split.
  - apply Habsent. apply (bool_decide_unpack _). reflexivity.
  - apply Hback. apply (bool_decide_unpack _). reflexivity.
Defined.

(** ** The flag set with no refresh in flight *)

Lemma stuck_step (ev : Event) (w : World) :
  coherent w -> isRefreshing w = true -> awaiting w = [] ->
  let w' := exec (step ev) w in
  isRefreshing w' = true /\ awaiting w' = [] /\
  failedQueue w `prefix_of` failedQueue w' /\
  refresh_calls (log w') = refresh_calls (log w) /\
  requests_sent (log w') = requests_sent (log w).
Proof.
  intros (_ & _ & _ & Hm) Hr Ha. cbn zeta.
  destruct ev as [error | r | responseData |]; unfold exec.
  - destruct (handles_401 error) eqn:H401.
    + rewrite step_queues by done. project.
      repeat split; try done. by apply prefix_app_r.
    + rewrite step_passes by done. project.
      rewrite refresh_calls_app. unfold requests_sent.
      rewrite List.flat_map_app. cbn. rewrite app_nil_r.
      repeat split; try done. all: lia.
  - rewrite step_run. unfold exec. rewrite task_settled_idle by done.
    project. rewrite Hm. cbn [map]. by rewrite app_nil_r.
  - rewrite step_run. cbn [task]. project.
    destruct (login_frame responseData w) as (Hr' & Hq' & Ha' & Hj').
    cbn zeta in *. rewrite Hr', Hq', Ha', Hj', Hm. cbn [map].
    rewrite app_nil_r.
    pose proof (loginWithToken_calls responseData w) as Hcalls.
    repeat split; try done.
    unfold loginWithToken, exec, if_truthy.
    destruct (auth_token responseData) as [t|];
      destruct (auth_refreshToken responseData) as [x|];
      try destruct (truthy_string t); try destruct (truthy_string x);
      run_js; unfold requests_sent; rewrite ?List.flat_map_app; cbn;
      by rewrite ?app_nil_r.
  - rewrite step_run. unfold exec, task, logoutWithCleanup.
    rewrite clearTokens_run. project. rewrite Hm. cbn [map].
    rewrite app_nil_r, refresh_calls_app. unfold requests_sent.
    rewrite List.flat_map_app. cbn. rewrite app_nil_r.
    repeat split; try done. all: lia.
Qed.

(** X23. Once the flag is set while no handler waits for a refresh call,
    which is the state the handler leaves behind when it finds no refresh
    token, nothing the page can do clears it: after any further events,
    logins and logouts included, the flag is still set, no handler waits,
    the queue has only grown, and neither the refresh endpoint has been
    called nor any request re-issued.  The requests queued in that state
    are never answered. *)
Theorem flag_without_refresh_is_never_cleared
    (w : World) (future : list Event) :
  reachable w -> isRefreshing w = true -> awaiting w = [] ->
  let w' := exec (run future) w in
  isRefreshing w' = true /\ awaiting w' = [] /\
  failedQueue w `prefix_of` failedQueue w' /\
  refresh_calls (log w') = refresh_calls (log w) /\
  requests_sent (log w') = requests_sent (log w).
Proof.
  intros Hreach. pose proof (reachable_coherent w Hreach) as Hco.
  clear Hreach. cbn zeta. revert w Hco.
  induction future as [| ev future IH]; intros w Hco Hr Ha; [done |].
  rewrite exec_run_cons.
  destruct (stuck_step ev w Hco Hr Ha) as (Hr' & Ha' & Hq & Hcalls & Hsent).
  destruct (IH (exec (step ev) w)) as (? & ? & Hq' & Hcalls' & Hsent');
    [by apply coherent_step | done | done |].
  repeat split; try done.
  - by etrans.
  - by rewrite Hcalls'.
  - by rewrite Hsent'.
Qed.

Lemma flag_without_refresh_is_never_cleared_witness :
  let w := exec (run [ResponseFailed
                        (unauthorized (sample_request "/api/v1/customers"))])
             (init ∅ "/dashboard") in
  let future :=
    [LoggedIn (mkAuth (Some "a1") (Some "r1"));
     ResponseFailed (unauthorized (sample_request "/api/v1/products"));
     RefreshSettled (RefreshOk (mkRefreshData "a2" None))] in
  isRefreshing (exec (run future) w) = true /\
  refresh_calls (log (exec (run future) w)) = refresh_calls (log w).
Proof.
  intros w future.
  assert (Hreach : reachable w).
  { exists ∅, "/dashboard",
      [ResponseFailed (unauthorized (sample_request "/api/v1/customers"))].
    exact eq_refl. }
  assert (Hflag0 : isRefreshing w = true) by (vm_compute; reflexivity).
  assert (Hpark0 : awaiting w = []) by (vm_compute; reflexivity).
  destruct (flag_without_refresh_is_never_cleared w future Hreach Hflag0 Hpark0)
    as (Hflag & _ & _ & Hcalls & _).
  split; [exact Hflag | exact Hcalls].
Defined.
